(** * twitter-capture: the extraction pipeline, embedded and checked

    A shallow embedding of [src/twitter_capture/extractor.py] (the
    three-tier extractor [extract_tweet_data] with its helper
    [extract_from_meta_tags]), of the caller's media combination in
    [src/twitter_capture/bot.py] and of the sibling extractor
    [extract_media_from_tweet] of [src/media_extractor.py].

    Python [str] values are modelled as [string]: sequences of code
    points below 256.  Every literal and every regular expression of the
    source is ASCII.  Network and browser calls are read from an explicit
    environment record; what a call raises is either an instance of
    [Exception] or a [BaseException] that is not one (a cancelled task, a
    keyboard interrupt), and only the first is caught by the handlers. *)

From Stdlib Require Import String Ascii List Bool Arith ZArith Lia DecimalString.
Import ListNotations.

Open Scope list_scope.
Open Scope string_scope.

(* ================================================================== *)
(** ** Python / JavaScript string primitives *)
(* ================================================================== *)

Module Str.

(** [s.startswith(p)] *)
Fixpoint startswith (p s : string) : bool :=
  match p, s with
  | EmptyString, _ => true
  | String a p', String b s' => Ascii.eqb a b && startswith p' s'
  | String _ _, EmptyString => false
  end.

(** the rest of [s] after the prefix [p], when [s] starts with [p] *)
Fixpoint strip_prefix (p s : string) : option string :=
  match p, s with
  | EmptyString, _ => Some s
  | String a p', String b s' =>
      if Ascii.eqb a b then strip_prefix p' s' else None
  | String _ _, EmptyString => None
  end.

(** [sub in s] (Python), [s.includes(sub)] (JavaScript) *)
Fixpoint contains (sub s : string) : bool :=
  startswith sub s
  || match s with
     | EmptyString => false
     | String _ s' => contains sub s'
     end.

Fixpoint take (n : nat) (s : string) : string :=
  match n, s with
  | S k, String c s' => String c (take k s')
  | _, _ => EmptyString
  end.

(** [str.replace(old, new)] for the empty [old]: [new] is inserted
    before every character and at the end. *)
Fixpoint replace_empty (new s : string) : string :=
  match s with
  | EmptyString => new
  | String c s' => new ++ String c (replace_empty new s')
  end.

(** [str.replace(old, new)] for a non-empty [old]: occurrences are found
    from the left and do not overlap.  [skip] counts the characters of
    the occurrence found last that are still to be passed over. *)
Fixpoint replace_from (old new : string) (skip : nat) (s : string) : string :=
  match s with
  | EmptyString => EmptyString
  | String c s' =>
      match skip with
      | S k => replace_from old new k s'
      | O =>
          if startswith old s
          then new ++ replace_from old new (String.length old - 1) s'
          else String c (replace_from old new 0 s')
      end
  end.

Definition replace (old new s : string) : string :=
  match old with
  | EmptyString => replace_empty new s
  | String _ _ => replace_from old new 0 s
  end.

(** JavaScript [s.replace(old, new)] with a string pattern: only the
    first occurrence is replaced *)
Fixpoint replace_first (old new s : string) : string :=
  match strip_prefix old s with
  | Some rest => new ++ rest
  | None =>
      match s with
      | EmptyString => EmptyString
      | String c s' => String c (replace_first old new s')
      end
  end.

(** [s.split(sep)[0]] for a one-character separator *)
Fixpoint before_char (sep : ascii) (s : string) : string :=
  match s with
  | EmptyString => EmptyString
  | String c s' => if Ascii.eqb c sep then EmptyString
                   else String c (before_char sep s')
  end.

Definition code (c : ascii) : nat := nat_of_ascii c.

Definition in_range (lo hi : nat) (c : ascii) : bool :=
  Nat.leb lo (code c) && Nat.leb (code c) hi.

(** [str.isspace] on code points below 256 *)
Definition py_space (c : ascii) : bool :=
  in_range 9 13 c || in_range 28 32 c
  || Nat.eqb (code c) 133 || Nat.eqb (code c) 160.

(** WhiteSpace and LineTerminator of ECMAScript on code points below
    256: what [String.prototype.trim] removes and what [\s] matches *)
Definition js_space (c : ascii) : bool :=
  in_range 9 13 c || Nat.eqb (code c) 32 || Nat.eqb (code c) 160.

Fixpoint lstrip (sp : ascii -> bool) (s : string) : string :=
  match s with
  | EmptyString => EmptyString
  | String c s' => if sp c then lstrip sp s' else s
  end.

Fixpoint rstrip (sp : ascii -> bool) (s : string) : string :=
  match s with
  | EmptyString => EmptyString
  | String c s' =>
      match rstrip sp s' with
      | EmptyString => if sp c then EmptyString else String c EmptyString
      | r => String c r
      end
  end.

(** Python [s.strip()] *)
Definition strip (s : string) : string := rstrip py_space (lstrip py_space s).

(** JavaScript [s.trim()] *)
Definition trim (s : string) : string := rstrip js_space (lstrip js_space s).

(** [ch.lower()] on code points below 256 *)
Definition lower_char (c : ascii) : ascii :=
  if in_range 65 90 c
     || (in_range 192 222 c && negb (Nat.eqb (code c) 215))
  then ascii_of_nat (code c + 32)
  else c.

Fixpoint lower (s : string) : string :=
  match s with
  | EmptyString => EmptyString
  | String c s' => String (lower_char c) (lower s')
  end.

(** a string is truthy when it is not empty *)
Definition truthy (s : string) : bool :=
  match s with EmptyString => false | String _ _ => true end.

(** [x in xs] for a list of strings *)
Definition mem (x : string) (xs : list string) : bool :=
  existsb (String.eqb x) xs.

End Str.

(* ================================================================== *)
(** ** Regular expressions: the backtracking matcher of [re] and of
       JavaScript, for the constructs the source uses *)
(* ================================================================== *)

Module Re.

Inductive regex : Type :=
| Lit (s : string)                (* literal text *)
| Cls (p : ascii -> bool)         (* one character of a class *)
| Plus (p : ascii -> bool)        (* class+, greedy *)
| PlusLazy (p : ascii -> bool)    (* class+?, lazy *)
| Opt (r : regex)                 (* (?:r)?, greedy *)
| Alt (r1 r2 : regex)             (* r1|r2 *)
| Cat (r1 r2 : regex)             (* r1 r2 *)
| Grp (n : nat) (r : regex).      (* capture group number n *)

Definition caps := list (nat * string).

Fixpoint group (n : nat) (cs : caps) : option string :=
  match cs with
  | [] => None
  | (m, v) :: cs' => if Nat.eqb n m then Some v else group n cs'
  end.

(** the text between the position [s] and the later position [s'] *)
Definition consumed (s s' : string) : string :=
  Str.take (String.length s - String.length s') s.

Section Matcher.
Context {R : Type}.

(** longest run first, then shorter ones *)
Fixpoint plus_greedy (p : ascii -> bool) (s : string)
         (k : string -> option R) : option R :=
  match s with
  | EmptyString => None
  | String c s' =>
      if p c then
        match plus_greedy p s' k with
        | Some x => Some x
        | None => k s'
        end
      else None
  end.

(** shortest run first, then longer ones *)
Fixpoint plus_lazy (p : ascii -> bool) (s : string)
         (k : string -> option R) : option R :=
  match s with
  | EmptyString => None
  | String c s' =>
      if p c then
        match k s' with
        | Some x => Some x
        | None => plus_lazy p s' k
        end
      else None
  end.

Fixpoint matchk (r : regex) (s : string) (cs : caps)
         (k : string -> caps -> option R) : option R :=
  match r with
  | Lit l =>
      match Str.strip_prefix l s with
      | Some s' => k s' cs
      | None => None
      end
  | Cls p =>
      match s with
      | String c s' => if p c then k s' cs else None
      | EmptyString => None
      end
  | Plus p => plus_greedy p s (fun s' => k s' cs)
  | PlusLazy p => plus_lazy p s (fun s' => k s' cs)
  | Opt r1 =>
      match matchk r1 s cs k with
      | Some x => Some x
      | None => k s cs
      end
  | Alt r1 r2 =>
      match matchk r1 s cs k with
      | Some x => Some x
      | None => matchk r2 s cs k
      end
  | Cat r1 r2 => matchk r1 s cs (fun s' cs' => matchk r2 s' cs' k)
  | Grp n r1 =>
      matchk r1 s cs (fun s' cs' => k s' ((n, consumed s s') :: cs'))
  end.
End Matcher.

(** a match anchored at the start of [s]: the rest after it, and the groups *)
Definition match_here (r : regex) (s : string) : option (string * caps) :=
  matchk r s [] (fun s' cs => Some (s', cs)).

(** [re.search] / [String.prototype.match]: the leftmost match *)
Fixpoint search (r : regex) (s : string) : option (string * caps) :=
  match match_here r s with
  | Some x => Some x
  | None =>
      match s with
      | EmptyString => None
      | String _ s' => search r s'
      end
  end.

(** group [n] of the leftmost match *)
Definition search_group (n : nat) (r : regex) (s : string) : option string :=
  match search r s with
  | Some (_, cs) => group n cs
  | None => None
  end.

(** [re.findall] for a pattern with one group: group 1 of every match,
    scanning from the left, matches not overlapping.  [skip] counts the
    characters of the last match still to be passed over.  After an empty
    match the scan moves on by one character; no pattern of the source
    matches the empty string. *)
Fixpoint findall_from (r : regex) (skip : nat) (s : string) : list string :=
  match skip with
  | S k =>
      match s with
      | EmptyString => []
      | String _ s' => findall_from r k s'
      end
  | O =>
      match match_here r s with
      | Some (rest, cs) =>
          let g := match group 1 cs with Some v => v | None => EmptyString end in
          g :: match s with
               | EmptyString => []
               | String _ s' =>
                   findall_from r (String.length s - String.length rest - 1) s'
               end
      | None =>
          match s with
          | EmptyString => []
          | String _ s' => findall_from r 0 s'
          end
      end
  end.

Definition findall (r : regex) (s : string) : list string :=
  findall_from r 0 s.

(** *** Character classes of the source's patterns *)

Definition chr (a : ascii) (c : ascii) : bool := Ascii.eqb a c.

(** the class of the two quote characters, double and single *)
Definition quote (c : ascii) : bool := chr "034"%char c || chr "'"%char c.
(** anything but a quote character *)
Definition not_quote (c : ascii) : bool := negb (quote c).
(** anything but the closing angle bracket *)
Definition not_gt (c : ascii) : bool := negb (chr ">"%char c).
(** [a-zA-Z0-9_] *)
Definition word (c : ascii) : bool :=
  Str.in_range 97 122 c || Str.in_range 65 90 c
  || Str.in_range 48 57 c || chr "_"%char c.
(** [a-zA-Z0-9_-] *)
Definition word_dash (c : ascii) : bool := word c || chr "-"%char c.
(** [.] of JavaScript: anything but a line terminator *)
Definition js_dot (c : ascii) : bool :=
  negb (Nat.eqb (Str.code c) 10) && negb (Nat.eqb (Str.code c) 13).

Fixpoint cat (rs : list regex) : regex :=
  match rs with
  | [] => Lit EmptyString
  | [r] => r
  | r :: rs' => Cat r (cat rs')
  end.

End Re.

(* ================================================================== *)
(** ** The result records *)
(* ================================================================== *)

(** The dict a successful extraction returns. *)
Record tweet : Type := mkTweet {
  username : string;
  handle : string;
  text : string;
  media_urls : list string;
  video_urls : list string;
  timestamp : string
}.

(** What [extract_tweet_data] returns: [None], the error dict
    [{'error': .., 'message': ..}], or a tweet dict. *)
Inductive pyresult : Type :=
| PyNone
| PyError (error message : string)
| PyTweet (t : tweet).

Definition twitter_error : pyresult :=
  PyError "twitter_error"
    "Twitter returned an error. The tweet may be deleted, private, or age-restricted.".

(* ================================================================== *)
(** ** Canonicalization: the rewrite to the proxy host *)
(* ================================================================== *)

(** extractor.py, line 99 (the same expression opens [extract_tweet_data]
    in src/bot.py and src/telegram_bot.py):
    [url.replace('twitter.com', 'fixupx.com').replace('x.com', 'fixupx.com')] *)
Definition fx_url (url : string) : string :=
  Str.replace "x.com" "fixupx.com" (Str.replace "twitter.com" "fixupx.com" url).

(** media_extractor.py, lines 78-80: three replacements in a row. *)
Definition fixupx_url (tweet_url : string) : string :=
  Str.replace "vxtwitter.com" "fixupx.com"
    (Str.replace "twitter.com" "fixupx.com"
       (Str.replace "x.com" "fixupx.com" tweet_url)).

(* ================================================================== *)
(** ** The meta-tag parser: [extract_from_meta_tags] *)
(* ================================================================== *)

Module Pat.
Import Re.

(** a [<meta ...>] tag with [key=<q>value<q>] before [content=<q>(..)<q>] *)
Definition meta_key_then_content (key value : string) : regex :=
  cat [Lit "<meta"; Plus not_gt; Lit key; Lit "="; Cls quote; Lit value;
       Cls quote; Plus not_gt; Lit "content="; Cls quote;
       Grp 1 (Plus not_quote); Cls quote].

(** the alternate attribute order: [content=<q>(..)<q>] before the key *)
Definition meta_content_then_key (key value : string) : regex :=
  cat [Lit "<meta"; Plus not_gt; Lit "content="; Cls quote;
       Grp 1 (Plus not_quote); Cls quote; Plus not_gt; Lit key; Lit "=";
       Cls quote; Lit value; Cls quote].

(** line 24 *)
Definition og_image : regex := meta_key_then_content "property" "og:image".
(** line 29 *)
Definition og_image_alt : regex := meta_content_then_key "property" "og:image".
(** line 34 *)
Definition twitter_image : regex := meta_key_then_content "name" "twitter:image".
(** line 38 *)
Definition twitter_image_alt : regex :=
  meta_content_then_key "name" "twitter:image".
(** line 48 *)
Definition og_title : regex := meta_key_then_content "property" "og:title".
(** line 67 *)
Definition og_description : regex :=
  meta_key_then_content "property" "og:description".

(** line 52: an at-sign handle between literal parentheses; the group
    holds the handle without the parentheses *)
Definition title_handle : regex :=
  cat [Lit "("; Grp 1 (Cat (Lit "@") (Plus word)); Lit ")"].

(** lines 61 and 243: the path segment before [/status/] *)
Definition url_handle : regex :=
  cat [Lit "/"; Grp 1 (Plus word); Lit "/status/"].

(** line 177, JavaScript: lazy name, white space, parenthesised handle *)
Definition js_title : regex :=
  cat [Grp 1 (PlusLazy js_dot); Plus Str.js_space; Lit "(";
       Grp 2 (Cat (Lit "@") (Plus word)); Lit ")"].

(** line 296, JavaScript (and media_bot.py line 133): the GIF thumbnail *)
Definition tweet_video : regex :=
  cat [Lit "tweet_video"; Opt (Lit "_thumb"); Lit "/";
       Grp 1 (Plus word_dash);
       Opt (Alt (Lit ".jpg") (Alt (Lit ".mp4") (Lit ".gif")))].
End Pat.

(** [if match and match not in image_urls: image_urls.append(match)] *)
Definition append_new (image_urls : list string) (m : string) : list string :=
  if Str.truthy m && negb (Str.mem m image_urls)
  then (image_urls ++ [m])%list
  else image_urls.

(** lines 21-40: the four scans, in the order of the source *)
Definition meta_image_urls (html : string) : list string :=
  let image_urls := [] in
  let image_urls := fold_left append_new (Re.findall Pat.og_image html) image_urls in
  let image_urls := fold_left append_new (Re.findall Pat.og_image_alt html) image_urls in
  let image_urls := fold_left append_new (Re.findall Pat.twitter_image html) image_urls in
  let image_urls := fold_left append_new (Re.findall Pat.twitter_image_alt html) image_urls in
  image_urls.

(** lines 43-57: name and handle from the title *)
Definition title_author (html : string) : string * string :=
  match Re.search_group 1 Pat.og_title html with
  | Some title =>
      match Re.search_group 1 Pat.title_handle title with
      | Some h => (Str.strip (Str.replace h EmptyString title), h)
      | None => (title, "@unknown")
      end
  | None => ("Unknown", "@unknown")
  end.

(** lines 59-64: the fallback to the URL *)
Definition url_fallback (url : string) (author : string * string)
  : string * string :=
  let '(name, h) := author in
  if String.eqb h "@unknown" then
    match Re.search_group 1 Pat.url_handle url with
    | Some seg => (seg, "@" ++ seg)
    | None => (name, h)
    end
  else (name, h).

Definition extract_from_meta_tags (html url : string) : option tweet :=
  let image_urls := meta_image_urls html in
  let '(name, h) := url_fallback url (title_author html) in
  let txt :=
    match Re.search_group 1 Pat.og_description html with
    | Some d => d
    | None => EmptyString
    end in
  match image_urls with
  | [] => None
  | _ :: _ =>
      Some {| username := name; handle := h; text := txt;
              media_urls := image_urls; video_urls := [];
              timestamp := "Unknown" |}
  end.

(* ================================================================== *)
(** ** The rendered page: a DOM tree and the selectors the source uses *)
(* ================================================================== *)

Module Dom.

#[warnings="-register-all"] Inductive node : Type :=
| Text (s : string)
| Elem (tag : string) (attrs : list (string * string)) (kids : list node).

Fixpoint lookup (name : string) (attrs : list (string * string))
  : option string :=
  match attrs with
  | [] => None
  | (a, v) :: rest => if String.eqb a name then Some v else lookup name rest
  end.

(** [el.getAttribute(name)]: [None] is JavaScript's [null] *)
Definition getAttribute (name : string) (n : node) : option string :=
  match n with
  | Elem _ attrs _ => lookup name attrs
  | Text _ => None
  end.

(** [el.textContent]: the text of all descendants, in document order *)
Fixpoint textContent (n : node) : string :=
  match n with
  | Text s => s
  | Elem _ _ kids => String.concat EmptyString (map textContent kids)
  end.

(** the elements below [n], in document order *)
Fixpoint descendants (n : node) : list node :=
  match n with
  | Text _ => []
  | Elem _ _ kids =>
      flat_map (fun k =>
                  match k with
                  | Text _ => []
                  | Elem _ _ _ => k :: descendants k
                  end) kids
  end.

Inductive selector : Type :=
| Any                                  (* [*] *)
| Tag (t : string)                     (* [t] *)
| HasAttr (a : string)                 (* [[a]] *)
| AttrIs (a v : string)                (* [[a=v]] *)
| AttrHas (a v : string)               (* [[a*=v]] *)
| Both (s1 s2 : selector)              (* a compound selector *)
| Either (s1 s2 : selector).           (* a selector list [s1, s2] *)

Fixpoint matches (sel : selector) (n : node) : bool :=
  match sel with
  | Any => true
  | Tag t => match n with Elem t' _ _ => String.eqb t t' | Text _ => false end
  | HasAttr a => match getAttribute a n with Some _ => true | None => false end
  | AttrIs a v =>
      match getAttribute a n with Some w => String.eqb v w | None => false end
  | AttrHas a v =>
      match getAttribute a n with
      | Some w => Str.truthy v && Str.contains v w
      | None => false
      end
  | Both s1 s2 => matches s1 n && matches s2 n
  | Either s1 s2 => matches s1 n || matches s2 n
  end.

Definition querySelectorAll (sel : selector) (root : node) : list node :=
  filter (matches sel) (descendants root).

Definition querySelector (sel : selector) (root : node) : option node :=
  hd_error (querySelectorAll sel root).

End Dom.

(** JavaScript truthiness of a value that is a string or [null] *)
Definition js_truthy (o : option string) : bool :=
  match o with
  | Some v => Str.truthy v
  | None => false
  end.

(** [a || b] on such values *)
Definition js_or (a b : option string) : option string :=
  if js_truthy a then a else b.

(** [if (!xs.includes(v)) xs.push(v)] *)
Definition push_new (xs : list string) (v : string) : list string :=
  if Str.mem v xs then xs else (xs ++ [v])%list.

(** [if (v && v.includes(part) && !xs.includes(v)) xs.push(v)] *)
Definition push_new_if_has (part : string) (xs : list string)
           (o : option string) : list string :=
  match o with
  | Some v =>
      if Str.truthy v && Str.contains part v then push_new xs v else xs
  | None => xs
  end.

(** [[...new Set(xs)]]: the first occurrence of each value, in order *)
Definition unique (xs : list string) : list string :=
  fold_left push_new xs [].

(** [article[role=article]]: the container of the post *)
Definition article_selector : Dom.selector :=
  Dom.Both (Dom.Tag "article") (Dom.AttrIs "role" "article").

(* ================================================================== *)
(** ** The two scripts evaluated in the rendered page *)
(* ================================================================== *)

Module Js.
Import Dom.

(** what the first script returns (lines 184-190) *)
Record meta_data : Type := mkMeta {
  md_username : string;
  md_handle : string;
  md_text : string;
  md_media_urls : list string;
  md_has_meta : bool
}.

(** lines 150-154 *)
Definition getMetaContent (document : node) (property : string)
  : option string :=
  match querySelector (Both (Tag "meta") (AttrIs "property" property)) document with
  | Some meta => getAttribute "content" meta
  | None =>
      match querySelector (Both (Tag "meta") (AttrIs "name" property)) document with
      | Some meta => getAttribute "content" meta
      | None => None
      end
  end.

(** lines 162-168 *)
Definition allImages (document : node) : list string :=
  fold_left
    (fun acc meta =>
       match getAttribute "content" meta with
       | Some content => if Str.truthy content then push_new acc content else acc
       | None => acc
       end)
    (querySelectorAll
       (Either (Both (Tag "meta") (AttrIs "property" "og:image"))
               (Both (Tag "meta") (AttrIs "name" "twitter:image")))
       document)
    [].

(** lines 177-181: the title split by the pattern of line 177 *)
Definition title_split (title : string) : string * string :=
  match Re.search Pat.js_title title with
  | Some (_, cs) =>
      match Re.group 1 cs, Re.group 2 cs with
      | Some n, Some h => (Str.trim n, h)
      | _, _ => ("Unknown", "@unknown")
      end
  | None => ("Unknown", "@unknown")
  end.

(** lines 170-182 *)
Definition meta_author (twitterCreator ogTitle : option string)
  : string * string :=
  if js_truthy twitterCreator then
    match twitterCreator with
    | Some creator => (Str.replace_first "@" EmptyString creator, creator)
    | None => ("Unknown", "@unknown")
    end
  else if js_truthy ogTitle then
    match ogTitle with
    | Some title => title_split title
    | None => ("Unknown", "@unknown")
    end
  else ("Unknown", "@unknown").

(** lines 149-191 *)
Definition evaluate_meta (document : node) : meta_data :=
  let ogImage := getMetaContent document "og:image" in
  let twitterImage := getMetaContent document "twitter:image" in
  let ogTitle := getMetaContent document "og:title" in
  let ogDescription := getMetaContent document "og:description" in
  let twitterCreator := getMetaContent document "twitter:creator" in
  let '(name, h) := meta_author twitterCreator ogTitle in
  {| md_username := name;
     md_handle := h;
     md_text := match js_or ogDescription (Some EmptyString) with
                | Some d => d
                | None => EmptyString
                end;
     md_media_urls := allImages document;
     md_has_meta := js_truthy (js_or ogImage twitterImage) |}.

Section Article.
(** the browser's resolution of a [src] attribute against the page *)
Variable resolve : string -> string.
(** [window.location.pathname] *)
Variable pathname : string.
(** [new Date().toLocaleString()] *)
Variable now : string.

(** the reflected property [el.src] *)
Definition src (el : node) : string :=
  match getAttribute "src" el with
  | Some v => resolve v
  | None => EmptyString
  end.

(** lines 222-240: name and handle from the [User-Name] block *)
Definition block_author (article : node) : string * string :=
  match querySelector (AttrIs "data-testid" "User-Name") article with
  | Some nameElement =>
      let spans := querySelectorAll (Tag "span") nameElement in
      let texts :=
        filter Str.truthy (map (fun s => Str.trim (textContent s)) spans) in
      let name :=
        match find (fun t => negb (Str.startswith "@" t) && Str.truthy t) texts with
        | Some t => t
        | None => "Unknown"
        end in
      let h :=
        match find (Str.startswith "@") texts with
        | Some t => t
        | None => "@unknown"
        end in
      (name, h)
  | None => ("Unknown", "@unknown")
  end.

(** lines 242-247: only the handle is taken from the location *)
Definition location_fallback (author : string * string) : string * string :=
  let '(name, h) := author in
  if String.eqb h "@unknown" then
    match Re.search_group 1 Pat.url_handle pathname with
    | Some seg => (name, "@" ++ seg)
    | None => (name, h)
    end
  else (name, h).

(** lines 249-258 *)
Definition article_text (article : node) : string :=
  match querySelector (Both (Tag "div") (HasAttr "lang")) article with
  | Some textContainer =>
      match querySelectorAll (Tag "span") textContainer with
      | [] => Str.trim (textContent textContainer)
      | textSpans => Str.trim (String.concat EmptyString (map textContent textSpans))
      end
  | None => EmptyString
  end.

(** lines 260-266: the images that qualify as photos, before the cap *)
Definition qualifying_imgs (article : node) : list string :=
  filter (fun s => negb (Str.contains "_normal." s))
    (filter (fun s => negb (Str.contains "/emoji/" s))
       (filter (fun s => negb (Str.contains "amplify_video_thumb" s))
          (filter (fun s => negb (Str.contains "profile_images" s))
             (filter Str.truthy
                (map src
                   (querySelectorAll
                      (Both (Tag "img") (AttrHas "src" "pbs.twimg.com"))
                      article)))))).

(** lines 260-267 *)
Definition mediaImgs (article : node) : list string :=
  firstn 4 (qualifying_imgs article).

(** lines 271-278 *)
Definition videos_from_elements (article : node) (videos : list string)
  : list string :=
  fold_left
    (fun vs video =>
       let vs := if Str.truthy (src video) then (vs ++ [src video])%list else vs in
       fold_left
         (fun vs source =>
            if Str.truthy (src source) then (vs ++ [src source])%list else vs)
         (querySelectorAll (Tag "source") video) vs)
    (querySelectorAll (Tag "video") article) videos.

(** lines 280-290 *)
Definition videos_from_attributes (article : node) (videos : list string)
  : list string :=
  fold_left
    (fun vs el =>
       let vs := push_new_if_has "video.twimg.com" vs (getAttribute "src" el) in
       push_new_if_has "video.twimg.com" vs (getAttribute "data-src" el))
    (querySelectorAll Any article) videos.

(** line 299 *)
Definition gif_video_url (videoId : string) : string :=
  "https://video.twimg.com/tweet_video/" ++ videoId ++ ".mp4".

(** lines 294-304, for one image *)
Definition gif_step (videos : list string) (img : node) : list string :=
  match js_or (getAttribute "src" img) (getAttribute "data-src" img) with
  | Some s =>
      if Str.truthy s && Str.contains "tweet_video" s then
        match Re.search_group 1 Pat.tweet_video s with
        | Some videoId => push_new videos (gif_video_url videoId)
        | None => videos
        end
      else videos
  | None => videos
  end.

(** lines 292-305 *)
Definition videos_from_gifs (article : node) (videos : list string)
  : list string :=
  fold_left gif_step
    (querySelectorAll (Both (Tag "img") (AttrHas "src" "tweet_video")) article)
    videos.

(** lines 307-313 *)
Definition videos_from_containers (article : node) (videos : list string)
  : list string :=
  fold_left
    (fun vs el =>
       push_new_if_has "video.twimg.com" vs (getAttribute "data-video-url" el))
    (querySelectorAll (HasAttr "data-video-url") article) videos.

(** the [videos] array when line 315 is reached *)
Definition videos (article : node) : list string :=
  videos_from_containers article
    (videos_from_gifs article
       (videos_from_attributes article
          (videos_from_elements article []))).

(** lines 317-318 *)
Definition article_timestamp (article : node) : string :=
  match querySelector (Tag "time") article with
  | Some timeElement => Str.trim (textContent timeElement)
  | None => now
  end.

(** lines 215-328: [None] is the script's [null] *)
Definition evaluate_article (document : node) : option tweet :=
  match querySelector (Both (Tag "article") (AttrIs "role" "article")) document with
  | None => None
  | Some article =>
      let '(name, h) := location_fallback (block_author article) in
      Some {| username := name;
              handle := h;
              text := article_text article;
              media_urls := mediaImgs article;
              video_urls := unique (videos article);
              timestamp := article_timestamp article |}
  end.
End Article.

End Js.

(* ================================================================== *)
(** ** The world outside: network and browser *)
(* ================================================================== *)

(** Every call of [extract_tweet_data] that leaves the process, one name
    per call site. *)
Inductive call : Type :=
| ClientEnter | ClientGet | ClientExit
| ImportPlaywright | PlaywrightStart | Launch | NewContext | NewPage
| Goto | EvaluateMeta | CloseAfterMeta | StopAfterMeta
| PageContent | CloseOnErrorPage | StopOnErrorPage
| WaitForArticle | EvaluateArticle | CloseAfterArticle | StopAfterArticle
| CloseInHandler | StopInHandler.

(** What a call can raise: an instance of [Exception], or a
    [BaseException] that is not one ([asyncio.CancelledError] delivered at
    an [await], [KeyboardInterrupt], [SystemExit]). *)
Inductive exn_class : Type :=
| AnException
| ABaseException.

Record world : Type := mkWorld {
  raises : call -> option exn_class;  (* what this call raises, if anything *)
  status_code : Z;                (* [response.status_code] *)
  response_text : string;         (* [response.text] *)
  meta_document : Dom.node;       (* the page when the first script runs *)
  page_content : string;          (* [page.content()] *)
  article_document : Dom.node;    (* the page when the second script runs *)
  location_pathname : string;
  locale_now : string;
  resolve_src : string -> string
}.

(** How a block of statements ends: with a [return], with a raised
    exception, or by reaching its end. *)
Inductive flow : Type :=
| Return (v : pyresult)
| Raise (e : exn_class)
| Next.

Definition and_then (a b : flow) : flow :=
  match a with
  | Next => b
  | other => other
  end.

(** [try: body / except Exception: handler]: the handler runs for an
    instance of [Exception] only, anything else passes through *)
Definition try_except (body handler : flow) : flow :=
  match body with
  | Raise AnException => handler
  | other => other
  end.

(* ================================================================== *)
(** ** [extract_tweet_data] *)
(* ================================================================== *)

(** lines 119-127: the meta-tag tier of the fast path; [Next] is the
    fall-through to the browser *)
Definition meta_outcome (html url : string) : flow :=
  match extract_from_meta_tags html url with
  | Some meta_data =>
      match media_urls meta_data with
      | [] => Next
      | _ :: _ => Return (PyTweet meta_data)
      end
  | None => Next
  end.

(** lines 108-127: what is done with the response of the fast path *)
Definition fast_tier (status : Z) (html url : string) : flow :=
  if negb (Z.eqb status 200) then Return PyNone
  else if Str.contains "Something went wrong" html
          && negb (Str.contains "og:image" html)
  then Return twitter_error
  else meta_outcome html url.

Section Pipeline.
Variable w : world.

Definition doing (c : call) (rest : flow) : flow :=
  match raises w c with
  | Some e => Raise e
  | None => rest
  end.

Notation "c ;; rest" := (doing c rest) (at level 61, right associativity).

(** leaving a [with] block runs its exit call however the block ended;
    what the exit call raises replaces the block's own outcome *)
Definition leaving (block : flow) (c : call) : flow :=
  match raises w c with
  | Some e => Raise e
  | None => block
  end.

(** lines 105-127: the [async with] block *)
Definition fast_path (url : string) : flow :=
  ClientEnter ;;
  leaving (ClientGet ;; fast_tier (status_code w) (response_text w) url)
          ClientExit.

(** lines 193-203 *)
Definition rendered_meta_tier : flow :=
  let meta_data := Js.evaluate_meta (meta_document w) in
  if Js.md_has_meta meta_data
     && match Js.md_media_urls meta_data with [] => false | _ :: _ => true end
  then
    CloseAfterMeta ;; StopAfterMeta ;;
    Return (PyTweet {| username := Js.md_username meta_data;
                       handle := Js.md_handle meta_data;
                       text := Js.md_text meta_data;
                       media_urls := Js.md_media_urls meta_data;
                       video_urls := [];
                       timestamp := "Unknown" |})
  else Next.

(** lines 205-211 *)
Definition rendered_error_page : flow :=
  PageContent ;;
  if Str.contains "something went wrong" (Str.lower (page_content w))
  then CloseOnErrorPage ;; StopOnErrorPage ;; Return twitter_error
  else Next.

Definition article_script : option tweet :=
  Js.evaluate_article (resolve_src w) (location_pathname w) (locale_now w)
    (article_document w).

(** lines 213-338 *)
Definition article_tier : flow :=
  WaitForArticle ;; EvaluateArticle ;;
  CloseAfterArticle ;; StopAfterArticle ;;
  match article_script with
  | Some tweet_data => Return (PyTweet tweet_data)
  | None => Return PyNone
  end.

(** lines 146-338: the body of the inner [try] *)
Definition render_body : flow :=
  Goto ;; EvaluateMeta ;;
  and_then rendered_meta_tier (and_then rendered_error_page article_tier).

(** lines 340-344: the inner handler *)
Definition render_handler : flow :=
  CloseInHandler ;; StopInHandler ;; Return PyNone.

(** lines 130-344 *)
Definition render_path : flow :=
  ImportPlaywright ;; PlaywrightStart ;; Launch ;; NewContext ;; NewPage ;;
  try_except render_body render_handler.

(** lines 97-348 *)
Definition extract_tweet_data (url : string) : flow :=
  try_except
    (and_then (fast_path (fx_url url)) render_path)
    (Return PyNone).

End Pipeline.

(** bot.py, line 180:
    [tweet_data.get('media_urls', []) + tweet_data.get('video_urls', [])] *)
Definition all_media (tweet_data : tweet) : list string :=
  (media_urls tweet_data ++ video_urls tweet_data)%list.

(* ================================================================== *)
(** ** The sibling extractor: media_extractor.py, [extract_media_from_tweet] *)
(* ================================================================== *)

Module MediaExtractor.
Import Dom.

Inductive media_type : Type := photo | video | gif.

Record media : Type := mkMedia { type : media_type; url : string }.

(** the elements below [n] that have a proper ancestor matching [anc]:
    the descendant combinator of [anc sel]; [inside] tells whether [n]
    itself is, or lies under, such an ancestor *)
Fixpoint under (anc : selector) (inside : bool) (n : node) : list node :=
  match n with
  | Text _ => []
  | Elem _ _ kids =>
      flat_map (fun k =>
                  match k with
                  | Text _ => []
                  | Elem _ _ _ =>
                      ((if inside then [k] else [])
                         ++ under anc (inside || matches anc k) k)%list
                  end) kids
  end.

(** [page.query_selector_all('article[role=article] sel')] *)
Definition query_selector_all (sel : selector) (document : node) : list node :=
  filter (matches sel)
    (under article_selector false document).

(** line 108: [src.split('?')[0] + '?name=4096x4096'] *)
Definition original_url (s : string) : string :=
  Str.before_char "?"%char s ++ "?name=4096x4096".

Definition http_src (el : node) : option string :=
  match getAttribute "src" el with
  | Some s => if Str.truthy s && Str.startswith "http" s then Some s else None
  | None => None
  end.

(** lines 97-109 *)
Definition photo_step (media_list : list media) (img : node) : list media :=
  match http_src img with
  | Some s =>
      if Str.contains "video_thumb" s then media_list
      else (media_list ++ [mkMedia photo (original_url s)])%list
  | None => media_list
  end.

(** lines 113-116 and 120-123 *)
Definition plain_step (t : media_type) (media_list : list media) (el : node)
  : list media :=
  match http_src el with
  | Some s => (media_list ++ [mkMedia t s])%list
  | None => media_list
  end.

(** lines 126-131: [seen] is the list of the urls kept so far *)
Definition dedup_step (acc : list media) (m : media) : list media :=
  if Str.mem (url m) (map url acc) then acc else (acc ++ [m])%list.

Definition unique_media (media_list : list media) : list media :=
  fold_left dedup_step media_list [].

(** lines 93-133, on the rendered page *)
Definition collect (document : node) : list media :=
  let media_list := [] in
  let media_list :=
    fold_left photo_step
      (query_selector_all (Both (Tag "img") (AttrHas "src" "media")) document)
      media_list in
  let media_list :=
    fold_left (plain_step video) (query_selector_all (Tag "video") document)
      media_list in
  let media_list :=
    fold_left (plain_step gif)
      (query_selector_all (Both (Tag "img") (AttrHas "src" "gif")) document)
      media_list in
  unique_media media_list.

(** lines 70-139: [None] stands for a page that failed to load or to
    show the article in time (lines 135-137 then return the empty list) *)
Definition extract_media_from_tweet (page : option node) : list media :=
  match page with
  | Some document => collect document
  | None => []
  end.

(** a photo item whose address went through the rewrite of line 108 *)
Definition enlarged (m : media) : Prop :=
  type m = photo -> exists s, url m = original_url s.

End MediaExtractor.

(* ================================================================== *)
(** ** Sample pages *)
(* ================================================================== *)

Module Sample.
Import Dom.

Definition img (s : string) : node := Elem "img" [("src", s)] [].

Definition video_el (s : string) : node := Elem "video" [("src", s)] [].

(** the double quote character, as a string *)
Definition dq : string := String "034"%char EmptyString.

(** [<meta key=<dq>value<dq> content=<dq>content<dq>>] *)
Definition meta (key value content : string) : string :=
  "<meta " ++ key ++ "=" ++ dq ++ value ++ dq
    ++ " content=" ++ dq ++ content ++ dq ++ ">".

Definition head (metas : list string) : string :=
  "<html><head>" ++ String.concat EmptyString metas ++ "</head><body></body></html>".

Definition page (media : list node) : node :=
  Elem "#document" []
    [Elem "html" []
       [Elem "body" []
          [Elem "article" [("role", "article")]
             [Elem "div" [("data-testid", "User-Name")]
                [Elem "span" [] [Text "Jane Doe"];
                 Elem "span" [] [Text "@janedoe"]];
              Elem "div" [("lang", "en")] [Elem "span" [] [Text "hello world"]];
              Elem "div" [] media;
              Elem "time" [] [Text "Jan 1"]]]]].

(** a world where nothing raises, the fast path answers [status] with
    [html] and the browser shows [document] *)
Definition served (status : Z) (html : string) (document : node) : world :=
  {| raises := fun _ => None;
     status_code := status;
     response_text := html;
     meta_document := document;
     page_content := "<html></html>";
     article_document := document;
     location_pathname := "/alice/status/42";
     locale_now := "now";
     resolve_src := fun s => s |}.

(** the fast path finds no image, the browser shows [document] *)
Definition quiet (document : node) : world :=
  served 200 (head []) document.
End Sample.

Module ErrorPage.
(** the error page of the source, without any image marker *)
Definition bare : string :=
  "<html><body>Something went wrong. Try reloading.</body></html>".

(** a page that shows the phrase and carries an image *)
Definition with_image : string :=
  Sample.head [Sample.meta "property" "og:image" "https://cdn.example/a.jpg"]
    ++ "<p>Something went wrong</p>".

Definition url : string := "https://fixupx.com/alice/status/42".

(** the address as the user sent it *)
Definition source : string := "https://x.com/alice/status/42".

(** what the meta-tag parser makes of [with_image] *)
Definition result : tweet :=
  {| username := "alice";
     handle := "@alice";
     text := EmptyString;
     media_urls := ["https://cdn.example/a.jpg"];
     video_urls := [];
     timestamp := "Unknown" |}.

(** the proxy answers [status] with [html], nothing raises, and the
    browser would show a post with one photo *)
Definition answered (status : Z) (html : string) : world :=
  Sample.served status html
    (Sample.page [Sample.img "https://pbs.twimg.com/media/A.jpg"]).
End ErrorPage.

Module JaneDoe.
(** the page of the claim, attributes in double quotes *)
Definition html : string :=
  Sample.head
    [Sample.meta "property" "og:image" "https://cdn.example/img1.jpg";
     Sample.meta "property" "og:title" "Jane Doe (@janedoe)"].

Definition url : string := "https://fixupx.com/janedoe/status/1".
End JaneDoe.

Module TitleWithoutHandle.
(** a page whose title names the author and gives no handle *)
Definition html : string :=
  Sample.head
    [Sample.meta "property" "og:image" "https://cdn.example/img1.jpg";
     Sample.meta "property" "og:title" "Jane Doe"].

Definition url : string := "https://proxy.example/alice/status/42".
End TitleWithoutHandle.

Module GifThumb.
Definition thumb : string := "https://pbs.twimg.com/tweet_video_thumb/XYZ123.jpg".

(** an article whose only image is the thumbnail of a GIF *)
Definition w : world := Sample.quiet (Sample.page [Sample.img thumb]).

Definition result : tweet :=
  {| username := "Jane Doe";
     handle := "@janedoe";
     text := "hello world";
     media_urls := [thumb];
     video_urls := ["https://video.twimg.com/tweet_video/XYZ123.mp4"];
     timestamp := "Jan 1" |}.
End GifThumb.

Module SmallPhoto.
Definition small : string := "https://pbs.twimg.com/media/A.jpg?name=small".

(** the fast path sees the image in a meta tag *)
Definition html : string :=
  Sample.head [Sample.meta "property" "og:image" small].

Definition fast : world := Sample.served 200 html (Sample.page []).

(** the fast path sees nothing, the article shows the image *)
Definition rendered : world := Sample.quiet (Sample.page [Sample.img small]).
End SmallPhoto.

Module TwinPhoto.
Definition a : string := "https://pbs.twimg.com/media/A.jpg".

(** an article that shows one image twice *)
Definition w : world := Sample.quiet (Sample.page [Sample.img a; Sample.img a]).

Definition result : tweet :=
  {| username := "Jane Doe";
     handle := "@janedoe";
     text := "hello world";
     media_urls := [a; a];
     video_urls := [];
     timestamp := "Jan 1" |}.
End TwinPhoto.

Module FivePhotos.
Definition photo (n : string) : string :=
  "https://pbs.twimg.com/media/P" ++ n ++ ".jpg".

Definition clip (n : string) : string :=
  "https://video.twimg.com/ext_tw_video/V" ++ n ++ ".mp4".

Definition media : list Dom.node :=
  (map (fun n => Sample.img (photo n)) ["1"; "2"; "3"; "4"; "5"]
   ++ map (fun n => Sample.video_el (clip n)) ["1"; "2"; "3"; "4"; "5"])%list.

Definition document : Dom.node := Sample.page media.

Definition article : Dom.node :=
  match Dom.querySelector article_selector document with
  | Some a => a
  | None => Dom.Text EmptyString
  end.

Definition result : tweet :=
  {| username := "Jane Doe";
     handle := "@janedoe";
     text := "hello world";
     media_urls := [photo "1"; photo "2"; photo "3"; photo "4"];
     video_urls := [clip "1"; clip "2"; clip "3"; clip "4"; clip "5"];
     timestamp := "Jan 1" |}.
End FivePhotos.

Module GifAndFive.
(** an article that shows a GIF and then five photos *)
Definition w : world :=
  Sample.quiet
    (Sample.page
       (Sample.img GifThumb.thumb
        :: map (fun n => Sample.img (FivePhotos.photo n))
             ["1"; "2"; "3"; "4"; "5"])).

Definition result : tweet :=
  {| username := "Jane Doe";
     handle := "@janedoe";
     text := "hello world";
     media_urls := [GifThumb.thumb; FivePhotos.photo "1"; FivePhotos.photo "2";
                    FivePhotos.photo "3"];
     video_urls := ["https://video.twimg.com/tweet_video/XYZ123.mp4"];
     timestamp := "Jan 1" |}.
End GifAndFive.

Module RepeatedPhoto.
(** an article that shows the first of five photos twice *)
Definition w : world :=
  Sample.quiet
    (Sample.page
       (Sample.img (FivePhotos.photo "1")
        :: map (fun n => Sample.img (FivePhotos.photo n))
             ["1"; "2"; "3"; "4"; "5"])).

Definition result : tweet :=
  {| username := "Jane Doe";
     handle := "@janedoe";
     text := "hello world";
     media_urls := [FivePhotos.photo "1"; FivePhotos.photo "1";
                    FivePhotos.photo "2"; FivePhotos.photo "3"];
     video_urls := [];
     timestamp := "Jan 1" |}.
End RepeatedPhoto.

Module Status404.
(** the proxy answers 404 and nothing raises *)
Definition w : world := Sample.served 404 "Not Found" (Sample.page []).

Definition url : string := "https://x.com/alice/status/42".
End Status404.

Module BrokenScript.
(** the fast path finds no image and the first script of the page raises *)
Definition w : world :=
  {| raises := fun c => match c with
                        | EvaluateMeta => Some AnException
                        | _ => None
                        end;
     status_code := 200;
     response_text := Sample.head [];
     meta_document := Sample.page [];
     page_content := "<html></html>";
     article_document := Sample.page [];
     location_pathname := "/alice/status/42";
     locale_now := "now";
     resolve_src := fun s => s |}.
End BrokenScript.

Module Cancelled.
(** the task is cancelled while the answer of the proxy is awaited *)
Definition in_fast_path : world :=
  {| raises := fun c => match c with
                        | ClientGet => Some ABaseException
                        | _ => None
                        end;
     status_code := 200;
     response_text := Sample.head [];
     meta_document := Sample.page [];
     page_content := "<html></html>";
     article_document := Sample.page [];
     location_pathname := "/alice/status/42";
     locale_now := "now";
     resolve_src := fun s => s |}.

(** the fast path finds no image and the task is cancelled while the
    browser loads the page *)
Definition in_browser : world :=
  {| raises := fun c => match c with
                        | Goto => Some ABaseException
                        | _ => None
                        end;
     status_code := 200;
     response_text := Sample.head [];
     meta_document := Sample.page [];
     page_content := "<html></html>";
     article_document := Sample.page [];
     location_pathname := "/alice/status/42";
     locale_now := "now";
     resolve_src := fun s => s |}.
End Cancelled.

Module MetaOnly.
(** the rendered page carries the image in a meta element *)
Definition document : Dom.node :=
  Dom.Elem "#document" []
    [Dom.Elem "html" []
       [Dom.Elem "head" []
          [Dom.Elem "meta" [("property", "og:image");
                            ("content", "https://cdn.example/img1.jpg")] [];
           Dom.Elem "meta" [("property", "og:title");
                            ("content", "Jane Doe (@janedoe)")] []];
        Dom.Elem "body" [] []]].

Definition w : world := Sample.quiet document.

Definition result : tweet :=
  {| username := "Jane Doe";
     handle := "@janedoe";
     text := EmptyString;
     media_urls := ["https://cdn.example/img1.jpg"];
     video_urls := [];
     timestamp := "Unknown" |}.
End MetaOnly.

(* ================================================================== *)
(** ** What a pattern matches: the reading of a regular expression *)
(* ================================================================== *)

Module ReSpec.
Import Re.

(** [s] consists of characters of the class [p] only *)
Fixpoint all_chars (p : ascii -> bool) (s : string) : bool :=
  match s with
  | EmptyString => true
  | String c s' => p c && all_chars p s'
  end.

(** [derives r w cs cs']: the pattern [r] can match the text [w], turning
    the groups [cs] recorded so far into [cs'] *)
Inductive derives : regex -> string -> caps -> caps -> Prop :=
| D_lit (l : string) (cs : caps) : derives (Lit l) l cs cs
| D_cls (p : ascii -> bool) (c : ascii) (cs : caps) :
    p c = true -> derives (Cls p) (String c EmptyString) cs cs
| D_plus (p : ascii -> bool) (c : ascii) (w : string) (cs : caps) :
    p c = true -> all_chars p w = true -> derives (Plus p) (String c w) cs cs
| D_plus_lazy (p : ascii -> bool) (c : ascii) (w : string) (cs : caps) :
    p c = true -> all_chars p w = true ->
    derives (PlusLazy p) (String c w) cs cs
| D_opt_skip (r : regex) (cs : caps) : derives (Opt r) EmptyString cs cs
| D_opt_take (r : regex) (w : string) (cs cs' : caps) :
    derives r w cs cs' -> derives (Opt r) w cs cs'
| D_alt_l (r1 r2 : regex) (w : string) (cs cs' : caps) :
    derives r1 w cs cs' -> derives (Alt r1 r2) w cs cs'
| D_alt_r (r1 r2 : regex) (w : string) (cs cs' : caps) :
    derives r2 w cs cs' -> derives (Alt r1 r2) w cs cs'
| D_cat (r1 r2 : regex) (w1 w2 : string) (cs cs1 cs2 : caps) :
    derives r1 w1 cs cs1 -> derives r2 w2 cs1 cs2 ->
    derives (Cat r1 r2) (w1 ++ w2) cs cs2
| D_grp (n : nat) (r : regex) (w : string) (cs cs' : caps) :
    derives r w cs cs' -> derives (Grp n r) w cs ((n, w) :: cs').
End ReSpec.

(** the value [re.findall] reports for one match *)
Definition group1 (cs : Re.caps) : string :=
  match Re.group 1 cs with Some v => v | None => EmptyString end.

(** [matched_by r w]: the text [w] is a match of [r], whatever the groups *)
Definition matched_by (r : Re.regex) (w : string) : Prop :=
  exists cs cs', ReSpec.derives r w cs cs'.

(* ================================================================== *)
(** ** Shapes of the values the extractors return *)
(* ================================================================== *)

(** an address as the image patterns capture it: not empty, no quote *)
Definition quote_free (u : string) : Prop :=
  u <> EmptyString /\ ReSpec.all_chars Re.not_quote u = true.

(** a handle: an at-sign and one or more word characters *)
Definition plain_handle (h : string) : Prop :=
  exists g, h = "@" ++ g /\ g <> EmptyString
            /\ ReSpec.all_chars Re.word g = true.

(** a photo address that passed the filters of lines 262-266 *)
Definition photo_ok (u : string) : Prop :=
  Str.truthy u = true
  /\ Str.contains "profile_images" u = false
  /\ Str.contains "amplify_video_thumb" u = false
  /\ Str.contains "/emoji/" u = false
  /\ Str.contains "_normal." u = false.

(** a video address is not empty, and it is the source of a [video] or
    [source] element or lies on the video host *)
Definition video_ok (resolve : string -> string) (article : Dom.node)
           (v : string) : Prop :=
  Str.truthy v = true
  /\ (In v (Js.videos_from_elements resolve article [])
      \/ Str.contains "video.twimg.com" v = true).

(** an item as the sibling extractor returns it *)
Definition item_ok (m : MediaExtractor.media) : Prop :=
  Str.startswith "http" (MediaExtractor.url m) = true
  /\ (MediaExtractor.type m = MediaExtractor.photo ->
      exists base, MediaExtractor.url m = base ++ "?name=4096x4096"
                   /\ Str.contains "?" base = false
                   /\ Str.contains "video_thumb" base = false).

(* ================================================================== *)
(** ** More string primitives, for the URL functions and the bot *)
(* ================================================================== *)

Module Text.

(** [c in chars] for one character *)
Fixpoint char_in (chars : string) (c : ascii) : bool :=
  match chars with
  | EmptyString => false
  | String d rest => Ascii.eqb c d || char_in rest c
  end.

(** [s.strip(chars)] *)
Definition strip_chars (chars s : string) : string :=
  Str.rstrip (char_in chars) (Str.lstrip (char_in chars) s).

(** [s.split()]: the maximal runs of characters that are not white space *)
Fixpoint split (s : string) : list string :=
  match s with
  | EmptyString => []
  | String c s' =>
      if Str.py_space c then split s'
      else
        match s' with
        | EmptyString => [String c EmptyString]
        | String d _ =>
            if Str.py_space d then String c EmptyString :: split s'
            else
              match split s' with
              | word :: rest => String c word :: rest
              | [] => [String c EmptyString]
              end
        end
  end.

(** [s.endswith(suffix)] *)
Fixpoint endswith (suffix s : string) : bool :=
  String.eqb suffix s
  || match s with
     | EmptyString => false
     | String _ s' => endswith suffix s'
     end.

(** [str(n)] for a natural number *)
Definition of_nat (n : nat) : string := NilEmpty.string_of_uint (Nat.to_uint n).

(** the line feed *)
Definition lf : string := String "010"%char EmptyString.

End Text.

(* ================================================================== *)
(** ** media_extractor.py: recognising the URL of a post *)
(* ================================================================== *)

Module Urls.
Import Re.

(** ASCII lower case, the only case folding that matters for the ASCII
    letters of the patterns below *)
Definition ascii_lower (c : ascii) : ascii :=
  if Str.in_range 65 90 c then ascii_of_nat (Str.code c + 32) else c.

(** one literal character under [re.IGNORECASE] *)
Definition ci (c : ascii) (d : ascii) : bool :=
  Ascii.eqb (ascii_lower c) (ascii_lower d).

(** literal text under [re.IGNORECASE] *)
Fixpoint ilit (s : string) : regex :=
  match s with
  | EmptyString => Lit EmptyString
  | String c s' => Cat (Cls (ci c)) (ilit s')
  end.

(** [\w] of a [str] pattern, on code points below 256 *)
Definition py_word (c : ascii) : bool :=
  word c
  || Nat.eqb (Str.code c) 170 || Str.in_range 178 179 c
  || Nat.eqb (Str.code c) 181 || Str.in_range 185 186 c
  || Str.in_range 188 190 c || Str.in_range 192 214 c
  || Str.in_range 216 246 c || Str.in_range 248 255 c.

(** [\d] of a [str] pattern, on code points below 256 *)
Definition digit (c : ascii) : bool := Str.in_range 48 57 c.

(** [https?://] *)
Definition scheme : regex :=
  Cat (ilit "http") (Cat (Opt (Cls (ci "s"%char))) (Lit "://")).

(** [www\.] *)
Definition www : regex := ilit "www.".

(** [/\w+/status/\d+] *)
Definition post_path : regex :=
  Cat (Lit "/") (Cat (Plus py_word) (Cat (ilit "/status/") (Plus digit))).

(** line 45 *)
Definition source_domains : regex :=
  Cat (Opt (Grp 1 scheme))
    (Cat (Opt (Grp 2 www))
       (Cat (Grp 3 (Alt (ilit "twitter.com") (ilit "x.com"))) post_path)).

(** line 46 *)
Definition mirror_domains : regex :=
  Cat (Opt (Grp 1 scheme))
    (Cat (Opt (Grp 2 www))
       (Cat (Grp 3 (Alt (ilit "vxtwitter.com") (ilit "fixupx.com"))) post_path)).

(** line 57 *)
Definition full_url : regex :=
  Grp 1
    (Cat scheme
       (Cat (Opt www)
          (Cat (Alt (ilit "twitter.com")
                  (Alt (ilit "x.com")
                     (Alt (ilit "vxtwitter.com") (ilit "fixupx.com"))))
             post_path))).

Definition found (r : regex) (text : string) : bool :=
  match search r text with
  | Some _ => true
  | None => false
  end.

(** lines 42-51 *)
Definition is_twitter_url (text : string) : bool :=
  if found source_domains text then true
  else if found mirror_domains text then true
  else false.

(** lines 54-67 *)
Definition extract_twitter_url (text : string) : option string :=
  match search_group 1 full_url text with
  | Some url =>
      let url := Str.replace "twitter.com" "x.com" url in
      let url := Str.replace "vxtwitter.com" "fixupx.com" url in
      Some url
  | None => None
  end.


End Urls.

(* ================================================================== *)
(** ** twitter_capture/bot.py: from a message to the media that are sent *)
(* ================================================================== *)

Module Bot.

(** what [requests.get] answers for an address, status and content;
    [None] is a raised exception *)
Definition fetcher : Type := string -> option (Z * string).

(** lines 31-39 *)
Definition download_file (get : fetcher) (url : string) : option string :=
  match get url with
  | Some (status, content) => if Z.eqb status 200 then Some content else None
  | None => None
  end.

(** lines 107-111, the body of the loop *)
Definition keep_url (twitter_urls : list string) (word : string) : list string :=
  if Str.contains "twitter.com" word || Str.contains "x.com" word then
    let url := Text.strip_chars "<>()" word in
    if Str.startswith "http" url then (twitter_urls ++ [url])%list
    else twitter_urls
  else twitter_urls.

(** lines 105-111 *)
Definition twitter_urls (text : string) : list string :=
  fold_left keep_url (Text.split text) [].

(** lines 211, 236 and 262 *)
Definition is_video (media_url : string) : bool :=
  Str.contains "video.twimg.com" media_url || Text.endswith ".mp4" media_url.

(** an item of an album; [None] is an item built without caption *)
Inductive input_media : Type :=
| InputMediaPhoto (media : string) (caption : option string)
| InputMediaVideo (media : string) (caption : option string).

Definition item_caption_of (m : input_media) : option string :=
  match m with
  | InputMediaPhoto _ c => c
  | InputMediaVideo _ c => c
  end.

Definition item_media (m : input_media) : string :=
  match m with
  | InputMediaPhoto f _ => f
  | InputMediaVideo f _ => f
  end.

(** lines 229-247: the loop over [enumerate(media_urls)], from index [i] *)
Fixpoint media_group_from (get : fetcher) (i : nat) (media_urls : list string)
         (caption : string) : list input_media :=
  match media_urls with
  | [] => []
  | media_url :: rest =>
      match download_file get media_url with
      | None => media_group_from get (S i) rest caption
      | Some file_bytes =>
          let c := if Nat.eqb i 0 then Some caption else None in
          (if is_video media_url
           then InputMediaVideo file_bytes c
           else InputMediaPhoto file_bytes c)
            :: media_group_from get (S i) rest caption
      end
  end.

(** The texts the bot sends.  The fixed wording of the two failure
    notices (lines 207 and 250) is not spelled out; the caption they
    quote is kept. *)
Inductive notice : Type :=
| Verbatim (s : string)
| FailedToDownload (caption : string)
| FailedToDownloadAny (caption : string).

Inductive reply : Type :=
| ReplyText (t : notice)
| ReplyPhoto (photo caption : string)
| ReplyVideo (video caption : string)
| ReplyDocument (document caption filename : string)
| ReplyMediaGroup (media : list input_media).

(** the messages that went out, and whether an exception escaped *)
Definition run : Type := (list reply * bool)%type.

Definition done : run := ([], false).

Section Sending.
(** [get 0] answers the downloads of the first pass, [get 1] those of the
    pass that sends the items of a refused album one by one *)
Variable get : nat -> fetcher.
(** does Telegram accept this message? otherwise the call raises *)
Variable accepts : reply -> bool.

Definition say (r : reply) (rest : run) : run :=
  if accepts r then (r :: fst rest, snd rest) else ([], true).

(** lines 201-222 *)
Definition _send_single_media (media_url caption : string) : run :=
  match download_file (get 0) media_url with
  | None => say (ReplyText (FailedToDownload caption)) done
  | Some file_bytes =>
      let first :=
        if is_video media_url
        then ReplyVideo file_bytes caption
        else ReplyPhoto file_bytes caption in
      if accepts first then ([first], false)
      else
        let filename := if is_video media_url then "video.mp4" else "media.jpg" in
        say (ReplyDocument file_bytes caption filename) done
  end.

(** line 263 *)
Definition item_caption (i n : nat) (caption : string) : string :=
  Text.of_nat (i + 1) ++ "/" ++ Text.of_nat n ++ Text.lf ++ Text.lf ++ caption.

(** lines 258-267: the items sent one by one, from index [i]; [n] is
    [len(media_urls)] *)
Fixpoint send_separately (i n : nat) (media_urls : list string)
         (caption : string) : run :=
  match media_urls with
  | [] => done
  | media_url :: rest =>
      match download_file (get 1) media_url with
      | None => send_separately (S i) n rest caption
      | Some file_bytes =>
          say (if is_video media_url
               then ReplyVideo file_bytes (item_caption i n caption)
               else ReplyPhoto file_bytes (item_caption i n caption))
              (send_separately (S i) n rest caption)
      end
  end.

(** lines 225-267 *)
Definition _send_media_album (media_urls : list string) (caption : string)
  : run :=
  match media_group_from (get 0) 0 media_urls caption with
  | [] => say (ReplyText (FailedToDownloadAny caption)) done
  | media_group =>
      if accepts (ReplyMediaGroup media_group)
      then ([ReplyMediaGroup media_group], false)
      else send_separately 0 (length media_urls) media_urls caption
  end.

(** lines 180-189 *)
Definition send_media (tweet_data : tweet) (caption : string) : run :=
  match all_media tweet_data with
  | [] => say (ReplyText (Verbatim caption)) done
  | [media_url] => _send_single_media media_url caption
  | media => _send_media_album (firstn 4 media) caption
  end.
End Sending.

(** the files that could be downloaded, in the order of the addresses *)
Definition downloaded (get : fetcher) (media_urls : list string) : list string :=
  flat_map (fun u => match download_file get u with
                     | Some f => [f]
                     | None => []
                     end) media_urls.

(** an item of an album that carries no caption *)
Definition no_caption (m : input_media) : Prop := item_caption_of m = None.

(** a message other than an album, or an album of one to four items *)
Definition album_size_ok (r : reply) : Prop :=
  match r with
  | ReplyMediaGroup media => 1 <= length media <= 4
  | _ => True
  end.

(** no white space *)
Definition not_space (c : ascii) : bool := negb (Str.py_space c).

End Bot.

(** a word of a message: not empty, without white space *)
Definition is_word (w : string) : Prop :=
  w <> EmptyString /\ ReSpec.all_chars Bot.not_space w = true.

(** an address as the handler passes it to the extractor *)
Definition url_ok (u : string) : Prop :=
  Str.startswith "http" u = true
  /\ (Str.contains "twitter.com" u = true \/ Str.contains "x.com" u = true)
  /\ ReSpec.all_chars Bot.not_space u = true.

Module Shouting.
(** the browser shows the error phrase in capitals *)
Definition w : world :=
  {| raises := fun _ => None;
     status_code := 200;
     response_text := Sample.head [];
     meta_document := Sample.page [];
     page_content := "<h1>SOMETHING WENT WRONG</h1>";
     article_document := Sample.page [];
     location_pathname := "/alice/status/42";
     locale_now := "now";
     resolve_src := fun s => s |}.
End Shouting.

Module BrowserDown.
(** the fast path answers as in [SmallPhoto.fast]; every call to the
    browser raises *)
Definition w : world :=
  {| raises := fun c => match c with
                        | ClientEnter | ClientGet | ClientExit => None
                        | _ => Some AnException
                        end;
     status_code := 200;
     response_text := SmallPhoto.html;
     meta_document := Dom.Text EmptyString;
     page_content := EmptyString;
     article_document := Dom.Text EmptyString;
     location_pathname := EmptyString;
     locale_now := EmptyString;
     resolve_src := fun s => s |}.
End BrowserDown.

Module Album.
(** three addresses; the first one cannot be downloaded *)
Definition urls : list string :=
  ["https://pbs.twimg.com/media/A.jpg";
   "https://pbs.twimg.com/media/B.jpg";
   "https://video.twimg.com/tweet_video/C.mp4"].

Definition get (u : string) : option (Z * string) :=
  if String.eqb u "https://pbs.twimg.com/media/A.jpg" then Some (404%Z, "gone")
  else Some (200%Z, "bytes of " ++ u).

(** the same addresses, all of them served *)
Definition get_all (u : string) : option (Z * string) :=
  Some (200%Z, "bytes of " ++ u).

Definition four_photos : tweet :=
  {| username := "Jane Doe";
     handle := "@janedoe";
     text := EmptyString;
     media_urls := ["https://pbs.twimg.com/media/1.jpg";
                    "https://pbs.twimg.com/media/2.jpg";
                    "https://pbs.twimg.com/media/3.jpg";
                    "https://pbs.twimg.com/media/4.jpg"];
     video_urls := ["https://video.twimg.com/tweet_video/C.mp4"];
     timestamp := "Jan 1" |}.
End Album.
(* ================================================================== *)
(** ** Shared lemmas *)
(* ================================================================== *)

Lemma mem_In (x : string) (xs : list string) :
  Str.mem x xs = true <-> In x xs.
Proof.
  unfold Str.mem. rewrite existsb_exists. split.
  - intros [y [Hy Heq]]. apply String.eqb_eq in Heq. now subst.
  - intros H. exists x. split; [exact H | apply String.eqb_refl].
Qed.

Lemma mem_false_not_In (x : string) (xs : list string) :
  Str.mem x xs = false -> ~ In x xs.
Proof.
  intros H Hin. apply mem_In in Hin. congruence.
Qed.

Lemma NoDup_snoc (x : string) (xs : list string) :
  NoDup xs -> ~ In x xs -> NoDup (xs ++ [x])%list.
Proof.
  intros Hnd Hnot. induction Hnd as [| y ys Hy Hys IH]; simpl.
  - constructor; [intros [] | constructor].
  - constructor.
    + rewrite in_app_iff. intros [H | [H | []]].
      * contradiction.
      * subst. apply Hnot. now left.
    + apply IH. intros H. apply Hnot. now right.
Qed.

Lemma push_new_NoDup (xs : list string) (v : string) :
  NoDup xs -> NoDup (push_new xs v).
Proof.
  intros H. unfold push_new. destruct (Str.mem v xs) eqn:E; [exact H |].
  apply NoDup_snoc; [exact H | now apply mem_false_not_In].
Qed.

Lemma push_new_In (xs : list string) (v x : string) :
  In x (push_new xs v) <-> In x xs \/ x = v.
Proof.
  unfold push_new. destruct (Str.mem v xs) eqn:E.
  - apply mem_In in E. split; [now left | intros [H | ->]; assumption].
  - rewrite in_app_iff. simpl. intuition.
Qed.

Lemma push_new_keeps (xs : list string) (v x : string) :
  In x xs -> In x (push_new xs v).
Proof. intros H. apply push_new_In. now left. Qed.

(** A loop that only ever pushes new values keeps the list free of
    duplicates. *)
Lemma fold_left_NoDup {A : Type} (f : list string -> A -> list string)
      (Hf : forall acc a, NoDup acc -> NoDup (f acc a)) :
  forall (l : list A) (acc : list string),
    NoDup acc -> NoDup (fold_left f l acc).
Proof.
  induction l as [| a l IH]; simpl; intros acc H; [exact H |].
  apply IH, Hf, H.
Qed.

(** A loop that never removes a value keeps what was collected before. *)
Lemma fold_left_keeps {A : Type} (f : list string -> A -> list string)
      (Hf : forall acc a x, In x acc -> In x (f acc a)) :
  forall (l : list A) (acc : list string) (x : string),
    In x acc -> In x (fold_left f l acc).
Proof.
  induction l as [| a l IH]; simpl; intros acc x H; [exact H |].
  apply IH, Hf, H.
Qed.

Lemma unique_NoDup (xs : list string) : NoDup (unique xs).
Proof.
  unfold unique. apply fold_left_NoDup.
  - intros acc a. apply push_new_NoDup.
  - constructor.
Qed.

Lemma fold_push_new_In (xs acc : list string) (x : string) :
  In x (fold_left push_new xs acc) <-> In x acc \/ In x xs.
Proof.
  revert acc. induction xs as [| y ys IH]; simpl; intros acc.
  - intuition.
  - rewrite IH, push_new_In. intuition.
Qed.

Lemma unique_In (xs : list string) (x : string) :
  In x (unique xs) <-> In x xs.
Proof.
  unfold unique. rewrite fold_push_new_In. simpl. intuition.
Qed.

Lemma append_new_NoDup (acc : list string) (m : string) :
  NoDup acc -> NoDup (append_new acc m).
Proof.
  intros H. unfold append_new.
  destruct (Str.truthy m); simpl; [| exact H].
  destruct (Str.mem m acc) eqn:E; simpl; [exact H |].
  apply NoDup_snoc; [exact H | now apply mem_false_not_In].
Qed.

(** The image list of the meta-tag parser has no repeated string. *)
Lemma meta_image_urls_NoDup (html : string) : NoDup (meta_image_urls html).
Proof.
  unfold meta_image_urls.
  repeat (apply fold_left_NoDup; [exact append_new_NoDup |]).
  constructor.
Qed.

(* ================================================================== *)
(** ** Canonicalization *)
(* ================================================================== *)

(** The replacement text [fixupx.com] itself ends in [x.com], the second
    pattern: a [twitter.com] address is rewritten twice in one pass. *)
Lemma fx_url_of_twitter_com :
  fx_url "https://twitter.com/alice/status/42"
  = "https://fixupfixupx.com/alice/status/42".
Proof. vm_compute. reflexivity. Qed.

(** C1 (the code departs from the claim).  Canonicalizing the valid post
    URL [https://x.com/alice/status/42] once gives the proxy address;
    canonicalizing that result again gives a different address, on the
    host [fixupfixupx.com].  Both rewrites of the repository do so: the one
    of [extract_tweet_data] and the one of [extract_media_from_tweet]. *)
Theorem C1_canonicalize_twice_differs :
  fx_url "https://x.com/alice/status/42" = "https://fixupx.com/alice/status/42"
  /\ fx_url (fx_url "https://x.com/alice/status/42")
     = "https://fixupfixupx.com/alice/status/42"
  /\ fx_url (fx_url "https://x.com/alice/status/42")
     <> fx_url "https://x.com/alice/status/42"
  /\ fixupx_url "https://x.com/alice/status/42"
     = "https://fixupx.com/alice/status/42"
  /\ fixupx_url (fixupx_url "https://x.com/alice/status/42")
     <> fixupx_url "https://x.com/alice/status/42".
Proof.
  repeat split; try (vm_compute; reflexivity);
    intros H; vm_compute in H; discriminate H.
Qed.

(* ================================================================== *)
(** ** The meta-tag parser *)
(* ================================================================== *)

(** The pattern of line 52 captures the handle without its parentheses,
    and line 55 removes only the captured text: whatever the page, a title
    with a parenthesised handle leaves the empty parentheses in the name. *)
Lemma title_author_jane (html : string) :
  Re.search_group 1 Pat.og_title html = Some "Jane Doe (@janedoe)" ->
  title_author html = ("Jane Doe ()", "@janedoe").
Proof.
  intros H. unfold title_author. rewrite H. vm_compute. reflexivity.
Qed.

(** The script of the rendered page splits the same title as the claim
    expects. *)
Lemma title_split_jane :
  Js.title_split "Jane Doe (@janedoe)" = ("Jane Doe", "@janedoe").
Proof. vm_compute. reflexivity. Qed.

(** C2 (the code departs from the claim).  On the page with the
    [og:image] and the [og:title] of the claim the fast path returns a
    record, not a failure, with the handle [@janedoe] and the one image
    URL, but with the author name [Jane Doe ()] where the claim says
    [Jane Doe]. *)
Theorem C2_fast_path_jane_doe :
  extract_from_meta_tags JaneDoe.html JaneDoe.url
  = Some {| username := "Jane Doe ()";
            handle := "@janedoe";
            text := EmptyString;
            media_urls := ["https://cdn.example/img1.jpg"];
            video_urls := [];
            timestamp := "Unknown" |}
  /\ fast_tier 200 JaneDoe.html JaneDoe.url
     = Return (PyTweet {| username := "Jane Doe ()";
                          handle := "@janedoe";
                          text := EmptyString;
                          media_urls := ["https://cdn.example/img1.jpg"];
                          video_urls := [];
                          timestamp := "Unknown" |})
  /\ "Jane Doe ()" <> "Jane Doe".
Proof.
  repeat split; try (vm_compute; reflexivity). discriminate.
Qed.

(* ================================================================== *)
(** ** The error classifier of the fast path *)
(* ================================================================== *)

Lemma extract_from_meta_tags_shape (html url : string) (t : tweet) :
  extract_from_meta_tags html url = Some t ->
  video_urls t = [] /\ media_urls t <> [].
Proof.
  unfold extract_from_meta_tags.
  destruct (url_fallback url (title_author html)) as [name h].
  destruct (meta_image_urls html) as [| u us]; [discriminate |].
  intros H. inversion H; subst. cbn [video_urls media_urls].
  split; [reflexivity | discriminate].
Qed.

Lemma meta_outcome_not_error (html url e m : string) :
  meta_outcome html url <> Return (PyError e m).
Proof.
  unfold meta_outcome.
  destruct (extract_from_meta_tags html url) as [t |]; [| discriminate].
  destruct (media_urls t); discriminate.
Qed.

(** a record of the meta-tag parser always has an image, so the test of
    line 122 adds nothing to the test of line 71 *)
Lemma meta_outcome_spelled (html url : string) :
  meta_outcome html url
  = match extract_from_meta_tags html url with
    | Some t => Return (PyTweet t)
    | None => Next
    end.
Proof.
  unfold meta_outcome.
  destruct (extract_from_meta_tags html url) as [t |] eqn:E; [| reflexivity].
  destruct (extract_from_meta_tags_shape _ _ _ E) as [_ Hm].
  destruct (media_urls t); [contradiction | reflexivity].
Qed.

(** when the HTTP exchange raises nothing the fast path is what is done
    with the response *)
Lemma fast_path_served (w : world) (url : string) :
  raises w ClientEnter = None -> raises w ClientGet = None ->
  raises w ClientExit = None ->
  fast_path w url = fast_tier (status_code w) (response_text w) url.
Proof.
  intros He Hg Hx. unfold fast_path, leaving, doing. now rewrite He, Hx, Hg.
Qed.

(** C3, as stated, fails: the error page of the source, answered with
    status 404, holds the phrase and no [og:image] marker, and the
    extraction returns [None], not the failure record. *)
Lemma C3_error_page_with_status_404 :
  Str.contains "Something went wrong"
    (response_text (ErrorPage.answered 404 ErrorPage.bare)) = true
  /\ Str.contains "og:image"
       (response_text (ErrorPage.answered 404 ErrorPage.bare)) = false
  /\ extract_tweet_data (ErrorPage.answered 404 ErrorPage.bare) ErrorPage.source
     = Return PyNone
  /\ ~ (exists e m,
           extract_tweet_data (ErrorPage.answered 404 ErrorPage.bare)
             ErrorPage.source = Return (PyError e m)).
Proof.
  split; [vm_compute; reflexivity |]. split; [vm_compute; reflexivity |].
  split; [vm_compute; reflexivity |].
  intros [e [m H]]. vm_compute in H. discriminate H.
Qed.

(** C3, amended.  Take any response of the fast path, the HTTP exchange
    raising nothing.  The fast path ends with the failure record
    [{'error': 'twitter_error', 'message': ...}], which has no media
    field, exactly when the status is 200 and the body contains
    [Something went wrong] and does not contain [og:image]; the whole
    extraction then returns that record, whatever the browser would show.
    A failure record returned by the extraction otherwise comes from the
    rendered tier, after the fast path fell through.  With status 200,
    the phrase and an [og:image] marker the extraction goes on as for any
    other page: it returns the record of the meta-tag parser when there is
    one and goes to the browser when there is none.  With another status
    it returns [None] whatever the body. *)
Theorem C3_error_classifier (w : world) (url : string) :
  raises w ClientEnter = None ->
  raises w ClientGet = None ->
  raises w ClientExit = None ->
  (fast_path w (fx_url url)
   = Return (PyError "twitter_error" "Twitter returned an error. The tweet may be deleted, private, or age-restricted.")
   <-> status_code w = 200%Z
       /\ Str.contains "Something went wrong" (response_text w) = true
       /\ Str.contains "og:image" (response_text w) = false)
  /\ (status_code w = 200%Z ->
      Str.contains "Something went wrong" (response_text w) = true ->
      Str.contains "og:image" (response_text w) = false ->
      extract_tweet_data w url
      = Return (PyError "twitter_error" "Twitter returned an error. The tweet may be deleted, private, or age-restricted."))
  /\ (forall e m,
        extract_tweet_data w url = Return (PyError e m) ->
        (status_code w = 200%Z
         /\ Str.contains "Something went wrong" (response_text w) = true
         /\ Str.contains "og:image" (response_text w) = false)
        \/ (fast_path w (fx_url url) = Next
            /\ render_path w = Return (PyError e m)))
  /\ (status_code w = 200%Z ->
      Str.contains "Something went wrong" (response_text w) = true ->
      Str.contains "og:image" (response_text w) = true ->
      extract_tweet_data w url
      = match extract_from_meta_tags (response_text w) (fx_url url) with
        | Some t => Return (PyTweet t)
        | None => try_except (render_path w) (Return PyNone)
        end)
  /\ (status_code w <> 200%Z -> extract_tweet_data w url = Return PyNone).
Proof.
  intros He Hg Hx.
  pose proof (fast_path_served w (fx_url url) He Hg Hx) as Hfp.
  unfold extract_tweet_data. rewrite Hfp. clear Hfp He Hg Hx.
  unfold fast_tier. rewrite meta_outcome_spelled.
  destruct (Z.eqb_spec (status_code w) 200) as [Es | Es]; cbn [negb];
    destruct (Str.contains "Something went wrong" (response_text w)) eqn:Ep;
    destruct (Str.contains "og:image" (response_text w)) eqn:Eo;
    cbn [andb negb and_then try_except twitter_error];
    (split; [split | split; [| split; [| split]]]).
  all: try (intros; reflexivity).
  all: try (intros; contradiction).
  all: try (intros; discriminate).
  all: try (intros (_ & H1 & H2); discriminate).
  all: try (intros (H1 & _ & _); contradiction).
  all: try (intros _; auto; fail).
  all: try (intros e m _; left; auto; fail).
  all: try (destruct (extract_from_meta_tags (response_text w) (fx_url url));
            cbn [and_then try_except]; intros; try discriminate;
            try reflexivity).
  all: try (right; split; [reflexivity |];
            destruct (render_path w) as [v | [|] |]; cbn [try_except] in *;
            congruence).
Qed.

(** The classifier at work: the error page of the source answered with
    status 200 and with status 404, and a page that shows the phrase next
    to an image. *)
Lemma C3_error_classifier_witness :
  extract_tweet_data (ErrorPage.answered 200 ErrorPage.bare) ErrorPage.source
  = Return (PyError "twitter_error" "Twitter returned an error. The tweet may be deleted, private, or age-restricted.")
  /\ extract_tweet_data (ErrorPage.answered 200 ErrorPage.with_image)
       ErrorPage.source
     = Return (PyTweet ErrorPage.result)
  /\ extract_tweet_data (ErrorPage.answered 404 ErrorPage.bare) ErrorPage.source
     = Return PyNone.
Proof.
  pose proof (C3_error_classifier (ErrorPage.answered 200 ErrorPage.bare)
                ErrorPage.source eq_refl eq_refl eq_refl) as (_ & H1 & _).
  pose proof (C3_error_classifier (ErrorPage.answered 200 ErrorPage.with_image)
                ErrorPage.source eq_refl eq_refl eq_refl) as (_ & _ & _ & H2 & _).
  pose proof (C3_error_classifier (ErrorPage.answered 404 ErrorPage.bare)
                ErrorPage.source eq_refl eq_refl eq_refl) as (_ & _ & _ & _ & H3).
  split; [| split].
  - apply H1; [reflexivity | vm_compute; reflexivity | vm_compute; reflexivity].
  - rewrite H2; [| reflexivity | vm_compute; reflexivity | vm_compute; reflexivity].
    vm_compute. reflexivity.
  - apply H3. discriminate.
Defined.

(** When the classifier fires the whole extraction ends there, whatever
    the browser would have shown. *)
Lemma error_page_ends_extraction (w : world) (url : string) :
  raises w ClientEnter = None -> raises w ClientGet = None ->
  raises w ClientExit = None -> status_code w = 200%Z ->
  Str.contains "Something went wrong" (response_text w) = true ->
  Str.contains "og:image" (response_text w) = false ->
  extract_tweet_data w url = Return twitter_error.
Proof.
  intros He Hg Hx Hs Hp Ho.
  unfold extract_tweet_data. rewrite (fast_path_served w _ He Hg Hx).
  unfold fast_tier. rewrite Hs, Hp, Ho. reflexivity.
Qed.

(* ================================================================== *)
(** ** The handle taken from the URL *)
(* ================================================================== *)

Lemma url_handle_of_canonical :
  Re.search_group 1 Pat.url_handle "https://proxy.example/alice/status/42"
  = Some "alice".
Proof. vm_compute. reflexivity. Qed.

(** In the meta-tag parser the fallback writes the handle and the name
    together, whatever name the title gave (lines 63-64). *)
Lemma url_fallback_overwrites_name (url name seg : string) :
  Re.search_group 1 Pat.url_handle url = Some seg ->
  url_fallback url (name, "@unknown") = (seg, "@" ++ seg).
Proof.
  intros H. unfold url_fallback. cbn [String.eqb].
  change ("@unknown" =? "@unknown")%string with true. cbv iota.
  rewrite H. reflexivity.
Qed.

(** A handle found in the title is not touched by the fallback. *)
Lemma url_fallback_keeps_resolved (url name h : string) :
  h <> "@unknown" -> url_fallback url (name, h) = (name, h).
Proof.
  intros H. unfold url_fallback.
  destruct (String.eqb_spec h "@unknown") as [E | _]; [contradiction | reflexivity].
Qed.

(** In the article script the fallback sets the handle only (line 245):
    the name found before is always kept. *)
Lemma location_fallback_keeps_name (pathname name h : string) :
  fst (Js.location_fallback pathname (name, h)) = name.
Proof.
  unfold Js.location_fallback.
  destruct (String.eqb h "@unknown"); [| reflexivity].
  destruct (Re.search_group 1 Pat.url_handle pathname); reflexivity.
Qed.

Lemma location_fallback_handle (pathname name seg : string) :
  Re.search_group 1 Pat.url_handle pathname = Some seg ->
  Js.location_fallback pathname (name, "@unknown") = (name, "@" ++ seg).
Proof.
  intros H. unfold Js.location_fallback.
  change ("@unknown" =? "@unknown")%string with true. cbv iota.
  rewrite H. reflexivity.
Qed.

(** C4 (the code departs from the claim).  The title [Jane Doe] resolves
    a name and no handle.  The handle then falls back to [@alice], the
    segment before [/status/], as the claim says; but the name resolved
    from the title is not kept: the meta-tag parser returns the name
    [alice]. *)
Theorem C4_fallback_replaces_title_name :
  title_author TitleWithoutHandle.html = ("Jane Doe", "@unknown")
  /\ extract_from_meta_tags TitleWithoutHandle.html TitleWithoutHandle.url
     = Some {| username := "alice";
               handle := "@alice";
               text := EmptyString;
               media_urls := ["https://cdn.example/img1.jpg"];
               video_urls := [];
               timestamp := "Unknown" |}
  /\ "alice" <> "Jane Doe".
Proof.
  repeat split; try (vm_compute; reflexivity). discriminate.
Qed.

(* ================================================================== *)
(** ** The article script: photos and videos *)
(* ================================================================== *)

Lemma fold_left_adds {A : Type} (f : list string -> A -> list string)
      (Hkeep : forall acc a x, In x acc -> In x (f acc a)) (a : A) (x : string)
      (Hadd : forall acc, In x (f acc a)) :
  forall (l : list A) (acc : list string),
    In a l -> In x (fold_left f l acc).
Proof.
  induction l as [| b l IH]; simpl; intros acc Hin; [contradiction |].
  destruct Hin as [-> | Hin].
  - apply fold_left_keeps; [exact Hkeep | apply Hadd].
  - apply IH, Hin.
Qed.

Lemma push_new_if_has_keeps (part : string) (xs : list string)
      (o : option string) (x : string) :
  In x xs -> In x (push_new_if_has part xs o).
Proof.
  intros H. unfold push_new_if_has. destruct o as [v |]; [| exact H].
  destruct (Str.truthy v && Str.contains part v); [| exact H].
  now apply push_new_keeps.
Qed.

Section ArticleFacts.
Import Dom.
Variable resolve : string -> string.

Lemma gif_step_keeps (vs : list string) (img : node) (x : string) :
  In x vs -> In x (Js.gif_step vs img).
Proof.
  intros H. unfold Js.gif_step.
  destruct (js_or _ _) as [s |]; [| exact H].
  destruct (Str.truthy s && Str.contains "tweet_video" s); [| exact H].
  destruct (Re.search_group 1 Pat.tweet_video s); [| exact H].
  now apply push_new_keeps.
Qed.

Lemma contains_truthy (part s : string) :
  Str.truthy part = true -> Str.contains part s = true -> Str.truthy s = true.
Proof.
  intros Hp H. destruct s; [| reflexivity].
  destruct part; [discriminate Hp | discriminate H].
Qed.

Lemma videos_from_containers_keeps (article : node) (vs : list string)
      (x : string) :
  In x vs -> In x (Js.videos_from_containers article vs).
Proof.
  unfold Js.videos_from_containers. apply fold_left_keeps.
  intros acc a y. apply push_new_if_has_keeps.
Qed.

(** An image that line 292 selects and that the GIF pattern matches puts
    its video URL in the result, and the result lists no URL twice. *)
Lemma gif_video_of_selected_img (article img : node) (s videoId : string) :
  In img (querySelectorAll (Both (Tag "img") (AttrHas "src" "tweet_video"))
                           article) ->
  js_or (getAttribute "src" img) (getAttribute "data-src" img) = Some s ->
  Str.contains "tweet_video" s = true ->
  Re.search_group 1 Pat.tweet_video s = Some videoId ->
  count_occ string_dec (unique (Js.videos resolve article))
            (Js.gif_video_url videoId) = 1.
Proof.
  intros Hin Hs Hc Hm.
  assert (Hlisted : In (Js.gif_video_url videoId)
                       (unique (Js.videos resolve article))).
  { apply unique_In. unfold Js.videos.
    apply videos_from_containers_keeps. unfold Js.videos_from_gifs.
    apply fold_left_adds with (a := img); [exact gif_step_keeps | | exact Hin].
    intros acc. unfold Js.gif_step. rewrite Hs, Hc, Hm.
    rewrite (contains_truthy "tweet_video" s eq_refl Hc). cbn [andb].
    apply push_new_In. now right. }
  pose proof (unique_NoDup (Js.videos resolve article)) as Hnd.
  rewrite (NoDup_count_occ string_dec) in Hnd.
  specialize (Hnd (Js.gif_video_url videoId)).
  apply (count_occ_In string_dec) in Hlisted. lia.
Qed.

(** No discovered video URL is dropped by line 315. *)
Lemma videos_all_kept (article : node) (v : string) :
  In v (Js.videos resolve article) ->
  In v (unique (Js.videos resolve article)).
Proof. apply unique_In. Qed.

End ArticleFacts.

(** Two different thumbnails with one id name the same video. *)
Lemma gif_rewrite_same_id :
  Re.search_group 1 Pat.tweet_video
    "https://pbs.twimg.com/tweet_video_thumb/XYZ123.jpg" = Some "XYZ123"
  /\ Re.search_group 1 Pat.tweet_video
       "https://pbs.twimg.com/tweet_video/XYZ123.gif?name=small" = Some "XYZ123"
  /\ Js.gif_video_url "XYZ123" = "https://video.twimg.com/tweet_video/XYZ123.mp4".
Proof. repeat split; vm_compute; reflexivity. Qed.

(** C5 (the code departs from the claim).  For the article whose only
    image is the GIF thumbnail [.../tweet_video_thumb/XYZ123.jpg] the
    extractor does list the video
    [https://video.twimg.com/tweet_video/XYZ123.mp4], once; but the same
    element is also kept as a photo: the thumbnail address is in
    [media_urls], and so in the media list of the caller. *)
Theorem C5_gif_thumbnail_is_also_a_photo :
  extract_tweet_data GifThumb.w "https://x.com/alice/status/42"
  = Return (PyTweet GifThumb.result)
  /\ count_occ string_dec (video_urls GifThumb.result)
       "https://video.twimg.com/tweet_video/XYZ123.mp4" = 1
  /\ In GifThumb.thumb (media_urls GifThumb.result)
  /\ all_media GifThumb.result
     = [GifThumb.thumb; "https://video.twimg.com/tweet_video/XYZ123.mp4"].
Proof.
  split; [vm_compute; reflexivity |].
  split; [vm_compute; reflexivity |].
  split; [now left | reflexivity].
Qed.

(* ================================================================== *)
(** ** Photo resolution *)
(* ================================================================== *)

(** The sibling extractor rewrites the same address to the largest size. *)
Lemma original_url_of_small :
  MediaExtractor.original_url SmallPhoto.small
  = "https://pbs.twimg.com/media/A.jpg?name=4096x4096".
Proof. vm_compute. reflexivity. Qed.

Lemma sibling_extractor_enlarges :
  MediaExtractor.extract_media_from_tweet
    (Some (Sample.page [Sample.img SmallPhoto.small]))
  = [MediaExtractor.mkMedia MediaExtractor.photo
       "https://pbs.twimg.com/media/A.jpg?name=4096x4096"].
Proof. vm_compute. reflexivity. Qed.

(** C6 (the code departs from the claim).  A photo address with the size
    parameter [name=small] comes out of [extract_tweet_data] unchanged,
    from the fast path as from the article: no size parameter is
    stripped and none is appended. *)
Theorem C6_photo_url_is_not_rewritten :
  extract_tweet_data SmallPhoto.fast "https://x.com/alice/status/42"
  = Return (PyTweet {| username := "alice";
                       handle := "@alice";
                       text := EmptyString;
                       media_urls := [SmallPhoto.small];
                       video_urls := [];
                       timestamp := "Unknown" |})
  /\ extract_tweet_data SmallPhoto.rendered "https://x.com/alice/status/42"
     = Return (PyTweet {| username := "Jane Doe";
                          handle := "@janedoe";
                          text := "hello world";
                          media_urls := [SmallPhoto.small];
                          video_urls := [];
                          timestamp := "Jan 1" |})
  /\ SmallPhoto.small <> MediaExtractor.original_url SmallPhoto.small.
Proof.
  repeat split; try (vm_compute; reflexivity).
  intros H. vm_compute in H. discriminate H.
Qed.

(** In the sibling extractor every photo that is returned has gone
    through the rewrite of line 108. *)
Section SiblingFacts.
Import MediaExtractor.

Lemma photo_step_enlarged (l : list media) (img : Dom.node) :
  Forall enlarged l -> Forall enlarged (photo_step l img).
Proof.
  intros H. unfold photo_step. destruct (http_src img) as [s |]; [| exact H].
  destruct (Str.contains "video_thumb" s); [exact H |].
  apply Forall_app. split; [exact H |].
  constructor; [| constructor]. intros _. now exists s.
Qed.

Lemma plain_step_enlarged (t : media_type) (l : list media) (el : Dom.node) :
  t <> photo -> Forall enlarged l -> Forall enlarged (plain_step t l el).
Proof.
  intros Ht H. unfold plain_step. destruct (http_src el) as [s |]; [| exact H].
  apply Forall_app. split; [exact H |].
  constructor; [| constructor]. intros E. now elim Ht.
Qed.

Lemma fold_left_Forall {A B : Type} (P : B -> Prop)
      (f : list B -> A -> list B)
      (Hf : forall acc a, Forall P acc -> Forall P (f acc a)) :
  forall (l : list A) (acc : list B),
    Forall P acc -> Forall P (fold_left f l acc).
Proof.
  induction l as [| a l IH]; simpl; intros acc H; [exact H |].
  apply IH, Hf, H.
Qed.

Lemma dedup_step_Forall (P : media -> Prop) (acc : list media) (m : media) :
  P m -> Forall P acc -> Forall P (dedup_step acc m).
Proof.
  intros Hm H. unfold dedup_step.
  destruct (Str.mem (url m) (map url acc)); [exact H |].
  apply Forall_app. split; [exact H | now constructor].
Qed.

Lemma unique_media_Forall (P : media -> Prop) (l : list media) :
  Forall P l -> Forall P (unique_media l).
Proof.
  unfold unique_media. intros H.
  assert (G : forall l acc, Forall P l -> Forall P acc ->
                            Forall P (fold_left dedup_step l acc)).
  { clear l H. induction l as [| m l IH]; simpl; intros acc Hl Hacc.
    - exact Hacc.
    - inversion Hl; subst. apply IH; [assumption |].
      now apply dedup_step_Forall. }
  apply G; [exact H | constructor].
Qed.

Lemma collect_photos_enlarged (document : Dom.node) :
  Forall enlarged (collect document).
Proof.
  unfold collect. apply unique_media_Forall.
  apply fold_left_Forall;
    [intros acc a; apply plain_step_enlarged; discriminate |].
  apply fold_left_Forall;
    [intros acc a; apply plain_step_enlarged; discriminate |].
  apply fold_left_Forall; [exact photo_step_enlarged | constructor].
Qed.

Lemma dedup_step_NoDup (acc : list media) (m : media) :
  NoDup (map url acc) -> NoDup (map url (dedup_step acc m)).
Proof.
  intros H. unfold dedup_step.
  destruct (Str.mem (url m) (map url acc)) eqn:E; [exact H |].
  rewrite map_app. simpl.
  apply NoDup_snoc; [exact H | now apply mem_false_not_In].
Qed.

(** X18.  No two of the items the sibling extractor returns have one
    address (lines 126-131). *)
Lemma collect_urls_NoDup (document : Dom.node) :
  NoDup (map url (collect document)).
Proof.
  unfold collect, unique_media.
  generalize (fold_left (plain_step gif)
    (query_selector_all (Dom.Both (Dom.Tag "img") (Dom.AttrHas "src" "gif")) document)
    (fold_left (plain_step video) (query_selector_all (Dom.Tag "video") document)
       (fold_left photo_step
          (query_selector_all (Dom.Both (Dom.Tag "img") (Dom.AttrHas "src" "media"))
             document) []))).
  intros l.
  assert (G : forall l acc, NoDup (map url acc) ->
                            NoDup (map url (fold_left dedup_step l acc))).
  { clear l. induction l as [| m l IH]; simpl; intros acc H; [exact H |].
    apply IH, dedup_step_NoDup, H. }
  apply G. constructor.
Qed.
End SiblingFacts.

(* ================================================================== *)
(** ** Duplicates *)
(* ================================================================== *)

(** The fast path returns no address twice. *)
Lemma fast_path_media_NoDup (html url : string) (t : tweet) :
  extract_from_meta_tags html url = Some t -> NoDup (all_media t).
Proof.
  unfold extract_from_meta_tags.
  destruct (url_fallback url (title_author html)) as [name h].
  pose proof (meta_image_urls_NoDup html) as Hnd.
  destruct (meta_image_urls html) as [| u us]; [discriminate |].
  intros H. inversion H; subst. unfold all_media. cbn [media_urls video_urls].
  now rewrite app_nil_r.
Qed.

(** Nor does the meta script of the rendered page. *)
Lemma allImages_NoDup (document : Dom.node) : NoDup (Js.allImages document).
Proof.
  unfold Js.allImages. apply fold_left_NoDup; [| constructor].
  intros acc meta H. destruct (Dom.getAttribute "content" meta) as [c |]; [| exact H].
  destruct (Str.truthy c); [now apply push_new_NoDup | exact H].
Qed.

(** The video list of the article script has no duplicates either. *)
Lemma article_videos_NoDup (resolve : string -> string)
      (pathname now : string) (document : Dom.node) (t : tweet) :
  Js.evaluate_article resolve pathname now document = Some t ->
  NoDup (video_urls t).
Proof.
  unfold Js.evaluate_article.
  destruct (Dom.querySelector _ document) as [article |]; [| discriminate].
  destruct (Js.location_fallback pathname (Js.block_author article)) as [name h].
  intros H. inversion H; subst. cbn [video_urls]. apply unique_NoDup.
Qed.

(** C7 (the code departs from the claim).  For an article that shows the
    image [https://pbs.twimg.com/media/A.jpg] twice, the photo list of the
    article script holds that address twice, and so does the media list
    the caller builds from it: the later duplicate is not dropped. *)
Theorem C7_article_photos_keep_duplicates :
  extract_tweet_data TwinPhoto.w "https://x.com/alice/status/42"
  = Return (PyTweet TwinPhoto.result)
  /\ all_media TwinPhoto.result = [TwinPhoto.a; TwinPhoto.a]
  /\ ~ NoDup (all_media TwinPhoto.result).
Proof.
  split; [vm_compute; reflexivity |].
  split; [reflexivity |].
  intros H. inversion H as [| x l Hnot _]; subst. apply Hnot. now left.
Qed.

(* ================================================================== *)
(** ** The cap on photos *)
(* ================================================================== *)

(** What the script does: the photo list is the first four of the
    addresses that pass its own filter (lines 260-266), repeats and GIF
    thumbnails included, and the video list is not cut. *)
Lemma article_photos_cut_at_four
      (resolve : string -> string) (pathname now : string)
      (document article : Dom.node) (t : tweet) :
  Dom.querySelector article_selector document = Some article ->
  Js.evaluate_article resolve pathname now document = Some t ->
  media_urls t = firstn 4 (Js.qualifying_imgs resolve article)
  /\ (forall v, In v (Js.videos resolve article) -> In v (video_urls t)).
Proof.
  intros Hart Hev. unfold Js.evaluate_article in Hev.
  unfold article_selector in Hart. rewrite Hart in Hev.
  destruct (Js.location_fallback pathname (Js.block_author article)) as [name h].
  inversion Hev; subst; clear Hev. cbn [media_urls video_urls].
  split; [reflexivity |]. intros v. apply videos_all_kept.
Qed.

(** C8 (the code departs from the claim).  An article that shows a GIF
    and then the five photos P1 .. P5: the four kept photo items are the
    thumbnail of the GIF, which is no photo (its video is in the video
    list), and P1, P2, P3; the fourth photo P4 is not kept.  An article
    that shows P1 twice and then P2 .. P5: the four kept items are P1, P1,
    P2, P3, three photos and not the first four.  The video list is not
    cut: five videos next to five photos are all kept. *)
Theorem C8_first_four_kept_are_not_four_photos :
  (extract_tweet_data GifAndFive.w "https://x.com/alice/status/42"
   = Return (PyTweet GifAndFive.result)
   /\ media_urls GifAndFive.result
      = ["https://pbs.twimg.com/tweet_video_thumb/XYZ123.jpg";
         "https://pbs.twimg.com/media/P1.jpg";
         "https://pbs.twimg.com/media/P2.jpg";
         "https://pbs.twimg.com/media/P3.jpg"]
   /\ video_urls GifAndFive.result
      = ["https://video.twimg.com/tweet_video/XYZ123.mp4"]
   /\ ~ In "https://pbs.twimg.com/media/P4.jpg" (media_urls GifAndFive.result))
  /\ (extract_tweet_data RepeatedPhoto.w "https://x.com/alice/status/42"
      = Return (PyTweet RepeatedPhoto.result)
      /\ media_urls RepeatedPhoto.result
         = ["https://pbs.twimg.com/media/P1.jpg";
            "https://pbs.twimg.com/media/P1.jpg";
            "https://pbs.twimg.com/media/P2.jpg";
            "https://pbs.twimg.com/media/P3.jpg"]
      /\ ~ In "https://pbs.twimg.com/media/P4.jpg"
              (media_urls RepeatedPhoto.result))
  /\ (extract_tweet_data (Sample.quiet FivePhotos.document)
        "https://x.com/alice/status/42"
      = Return (PyTweet FivePhotos.result)
      /\ media_urls FivePhotos.result
         = ["https://pbs.twimg.com/media/P1.jpg";
            "https://pbs.twimg.com/media/P2.jpg";
            "https://pbs.twimg.com/media/P3.jpg";
            "https://pbs.twimg.com/media/P4.jpg"]
      /\ length (video_urls FivePhotos.result) = 5).
Proof.
  split; [| split].
  - split; [vm_compute; reflexivity |]. split; [reflexivity |].
    split; [reflexivity |].
    intros H. vm_compute in H. repeat destruct H as [H | H]; try discriminate H.
    exact H.
  - split; [vm_compute; reflexivity |]. split; [reflexivity |].
    intros H. vm_compute in H. repeat destruct H as [H | H]; try discriminate H.
    exact H.
  - split; [vm_compute; reflexivity |]. split; reflexivity.
Qed.

Lemma five_photos_five_videos :
  extract_tweet_data (Sample.quiet FivePhotos.document)
    "https://x.com/alice/status/42"
  = Return (PyTweet FivePhotos.result)
  /\ length (video_urls FivePhotos.result) = 5.
Proof. split; vm_compute; reflexivity. Qed.

(* ================================================================== *)
(** ** Failure paths *)
(* ================================================================== *)

Section Failures.
Variable w : world.

(** one case for each thing a call can do, then for each test *)
Ltac by_cases_of_world :=
  repeat (first
    [ match goal with
      | |- context [raises w ?c] => destruct (raises w c) as [[|] |] eqn:?
      end
    | match goal with
      | |- context [match article_script w with _ => _ end] =>
          destruct (article_script w)
      end
    | match goal with
      | |- context [if ?b then _ else _] => destruct b
      end ];
    cbv iota beta).

Lemma fast_tier_no_raise (status : Z) (html url : string) (e : exn_class) :
  fast_tier status html url <> Raise e.
Proof.
  unfold fast_tier, meta_outcome.
  destruct (negb (Z.eqb status 200)); [discriminate |].
  destruct (_ && _); [discriminate |].
  destruct (extract_from_meta_tags html url) as [t |]; [| discriminate].
  destruct (media_urls t); discriminate.
Qed.

Lemma fast_path_not_200 (url : string) :
  status_code w <> 200%Z ->
  (exists e, fast_path w url = Raise e) \/ fast_path w url = Return PyNone.
Proof.
  intros Hs. unfold fast_path, leaving, doing, fast_tier.
  destruct (Z.eqb_spec (status_code w) 200) as [E | _]; [contradiction |].
  cbn [negb].
  destruct (raises w ClientEnter) as [e |]; [left; now exists e |].
  destruct (raises w ClientExit) as [e |]; [left; now exists e |].
  destruct (raises w ClientGet) as [e |]; [left; now exists e | now right].
Qed.

Lemma fast_tier_error (status : Z) (html url e m : string) :
  fast_tier status html url = Return (PyError e m) ->
  PyError e m = twitter_error.
Proof.
  unfold fast_tier. destruct (negb (Z.eqb status 200)); [discriminate |].
  destruct (_ && _).
  - intros H. now inversion H.
  - fold (meta_outcome html url). intros H.
    exfalso. exact (meta_outcome_not_error _ _ _ _ H).
Qed.

Lemma fast_path_error (url e m : string) :
  fast_path w url = Return (PyError e m) -> PyError e m = twitter_error.
Proof.
  unfold fast_path, leaving, doing.
  destruct (raises w ClientEnter); [discriminate |].
  destruct (raises w ClientExit); [discriminate |].
  destruct (raises w ClientGet); [discriminate |].
  apply fast_tier_error.
Qed.

Lemma render_body_error (e m : string) :
  render_body w = Return (PyError e m) -> PyError e m = twitter_error.
Proof.
  unfold render_body, rendered_meta_tier, rendered_error_page, article_tier,
    and_then, doing.
  by_cases_of_world; try discriminate.
  all: intros H; now inversion H.
Qed.

(** the handler of the inner [try] returns [None] or raises *)
Lemma render_handler_cases :
  (exists e, render_handler w = Raise e) \/ render_handler w = Return PyNone.
Proof.
  unfold render_handler, doing.
  destruct (raises w CloseInHandler) as [e |]; [left; now exists e |].
  destruct (raises w StopInHandler) as [e |]; [left; now exists e | now right].
Qed.

(** the body of the inner [try] never runs off its end *)
Lemma render_body_ends : render_body w <> Next.
Proof.
  unfold render_body, rendered_meta_tier, rendered_error_page, article_tier,
    and_then, doing.
  by_cases_of_world; discriminate.
Qed.

Lemma render_path_cases :
  (exists e, render_path w = Raise e)
  \/ render_path w = Return PyNone
  \/ (render_body w <> Raise AnException /\ render_path w = render_body w).
Proof.
  unfold render_path, doing.
  destruct (raises w ImportPlaywright) as [e |]; [left; now exists e |].
  destruct (raises w PlaywrightStart) as [e |]; [left; now exists e |].
  destruct (raises w Launch) as [e |]; [left; now exists e |].
  destruct (raises w NewContext) as [e |]; [left; now exists e |].
  destruct (raises w NewPage) as [e |]; [left; now exists e |].
  destruct (render_body w) as [v | [|] |] eqn:E; cbn [try_except].
  - right. right. split; [discriminate | reflexivity].
  - destruct render_handler_cases as [[e H] | H]; rewrite H.
    + left. now exists e.
    + right. now left.
  - right. right. split; [discriminate | reflexivity].
  - right. right. split; [discriminate | reflexivity].
Qed.

(** the extraction never runs off its end and lets no [Exception] out *)
Lemma extract_tweet_data_ends (url : string) :
  extract_tweet_data w url <> Next
  /\ extract_tweet_data w url <> Raise AnException.
Proof.
  unfold extract_tweet_data.
  destruct (fast_path w (fx_url url)) as [v | [|] |];
    cbn [and_then try_except]; try (split; discriminate).
  destruct render_path_cases as [[[|] H] | [H | [Hne H]]]; rewrite H;
    cbn [try_except]; try (split; discriminate).
  pose proof render_body_ends as Hend.
  destruct (render_body w) as [v | [|] |]; cbn [try_except];
    try (split; discriminate); contradiction.
Qed.

(** a sequence of calls raises what one of the calls raised *)
Lemma doing_cause (c : call) (rest : flow) (e : exn_class) :
  doing w c rest = Raise e -> raises w c = Some e \/ rest = Raise e.
Proof.
  unfold doing. destruct (raises w c) as [e' |]; intros H; [left | now right].
  now inversion H.
Qed.

Ltac peel H :=
  repeat (apply doing_cause in H; destruct H as [H | H];
          [eexists; exact H |]).

(** a sequence of calls that returns: the calls raised nothing *)
Lemma doing_return (c : call) (rest : flow) (v : pyresult) :
  doing w c rest = Return v -> rest = Return v.
Proof. unfold doing. destruct (raises w c); [discriminate | auto]. Qed.

Lemma fast_path_cause (url : string) (e : exn_class) :
  fast_path w url = Raise e -> exists c, raises w c = Some e.
Proof.
  unfold fast_path, leaving. intros H. apply doing_cause in H.
  destruct H as [H | H]; [eexists; exact H |].
  destruct (raises w ClientExit) as [e' |] eqn:Ex.
  - inversion H; subst. eexists; exact Ex.
  - peel H. exfalso. exact (fast_tier_no_raise _ _ _ _ H).
Qed.

Lemma and_then_cause (a b : flow) (e : exn_class) :
  and_then a b = Raise e -> a = Raise e \/ b = Raise e.
Proof. destruct a; cbn [and_then]; auto. Qed.

Lemma render_body_cause (e : exn_class) :
  render_body w = Raise e -> exists c, raises w c = Some e.
Proof.
  unfold render_body. intros H. peel H.
  apply and_then_cause in H. destruct H as [H | H].
  { unfold rendered_meta_tier in H.
    destruct (_ && _); [peel H |]; discriminate H. }
  apply and_then_cause in H. destruct H as [H | H].
  { unfold rendered_error_page in H. apply doing_cause in H.
    destruct H as [H | H]; [eexists; exact H |].
    destruct (Str.contains _ _); [peel H |]; discriminate H. }
  unfold article_tier in H. peel H.
  destruct (article_script w); discriminate H.
Qed.

Lemma render_handler_cause (e : exn_class) :
  render_handler w = Raise e -> exists c, raises w c = Some e.
Proof. unfold render_handler. intros H. peel H. discriminate H. Qed.

Lemma render_path_cause (e : exn_class) :
  render_path w = Raise e -> exists c, raises w c = Some e.
Proof.
  unfold render_path. intros H. peel H.
  destruct (render_body w) as [v | [|] |] eqn:Eb; cbn [try_except] in H;
    try discriminate H.
  - exact (render_handler_cause e H).
  - inversion H; subst. exact (render_body_cause _ Eb).
Qed.

(** what leaves the extraction was raised by one of its calls *)
Lemma escape_has_a_cause (url : string) (e : exn_class) :
  extract_tweet_data w url = Raise e -> exists c, raises w c = Some e.
Proof.
  unfold extract_tweet_data. intros H.
  destruct (fast_path w (fx_url url)) as [v | [|] |] eqn:Ef;
    cbn [and_then try_except] in H; try discriminate H.
  - inversion H; subst. exact (fast_path_cause _ _ Ef).
  - destruct (render_path w) as [v | [|] |] eqn:Er; cbn [try_except] in H;
      try discriminate H.
    inversion H; subst. exact (render_path_cause _ Er).
Qed.

Lemma render_body_raise_gives_none (url : string) :
  fast_path w (fx_url url) = Next ->
  render_body w = Raise AnException ->
  (forall c, raises w c <> Some ABaseException) ->
  extract_tweet_data w url = Return PyNone.
Proof.
  intros Hf Hb Hq. unfold extract_tweet_data. rewrite Hf. cbn [and_then].
  destruct render_path_cases as [[[|] H] | [H | [Hne _]]].
  - rewrite H. reflexivity.
  - exfalso. destruct (escape_has_a_cause url ABaseException) as [c Hc].
    + unfold extract_tweet_data. rewrite Hf. cbn [and_then]. now rewrite H.
    + exact (Hq c Hc).
  - rewrite H. reflexivity.
  - contradiction.
Qed.
End Failures.

(** C9, as stated, fails: with a 404 answer of the fast path the
    extraction returns [None], which is no record and has no failure
    field. *)
Lemma C9_none_instead_of_failure_record :
  status_code Status404.w <> 200%Z
  /\ extract_tweet_data Status404.w Status404.url = Return PyNone
  /\ ~ (exists e m,
           extract_tweet_data Status404.w Status404.url = Return (PyError e m)).
Proof.
  split; [discriminate |]. split; [vm_compute; reflexivity |].
  intros [e [m H]]. vm_compute in H. discriminate H.
Qed.

(** The handlers of lines 340 and 346 are [except Exception]: a task
    cancelled while the answer of the proxy is awaited, or while the page
    loads, leaves the extraction with its [BaseException]. *)
Lemma cancellation_leaves_the_extraction :
  extract_tweet_data Cancelled.in_fast_path Status404.url
  = Raise ABaseException
  /\ extract_tweet_data Cancelled.in_browser Status404.url
     = Raise ABaseException.
Proof. split; vm_compute; reflexivity. Qed.

(** C9, amended.  Whatever the network and the browser do, no
    [Exception] leaves the extraction, and what does leave it is a
    [BaseException] that one of its calls raised.  When no call raises
    such a thing the extraction returns a value, and a status other than
    200, a render failure and an [Exception] while a script is evaluated
    in the page all make it return [None]; so does an [Exception] of the
    fast path.  The only record with the error field set that it ever
    returns is the record of the error page, [twitter_error] with its
    message. *)
Theorem C9_extraction_always_returns (w : world) (url : string) :
  (extract_tweet_data w url <> Raise AnException
   /\ extract_tweet_data w url <> Next)
  /\ (forall e, extract_tweet_data w url = Raise e ->
                e = ABaseException
                /\ exists c, raises w c = Some ABaseException)
  /\ ((forall c, raises w c <> Some ABaseException) ->
      (exists v, extract_tweet_data w url = Return v)
      /\ (status_code w <> 200%Z -> extract_tweet_data w url = Return PyNone)
      /\ (fast_path w (fx_url url) = Next ->
          render_path w = Raise AnException
          \/ render_body w = Raise AnException ->
          extract_tweet_data w url = Return PyNone))
  /\ (fast_path w (fx_url url) = Raise AnException ->
      extract_tweet_data w url = Return PyNone)
  /\ (forall e m, extract_tweet_data w url = Return (PyError e m) ->
                  e = "twitter_error"
                  /\ m = "Twitter returned an error. The tweet may be deleted, private, or age-restricted.").
Proof.
  destruct (extract_tweet_data_ends w url) as [Hnext Hexn].
  assert (Hcause : forall e, extract_tweet_data w url = Raise e ->
                             e = ABaseException
                             /\ exists c, raises w c = Some ABaseException).
  { intros [|] H; [contradiction |]. split; [reflexivity |].
    exact (escape_has_a_cause w url _ H). }
  assert (Hret : (forall c, raises w c <> Some ABaseException) ->
                 exists v, extract_tweet_data w url = Return v).
  { intros Hq. destruct (extract_tweet_data w url) as [v | e |] eqn:E.
    - now exists v.
    - destruct (Hcause e eq_refl) as [_ [c Hc]]. exfalso. exact (Hq c Hc).
    - contradiction. }
  split; [exact (conj Hexn Hnext) |]. split; [exact Hcause |].
  split; [| split].
  - intros Hq. split; [exact (Hret Hq) |]. split.
    + intros Hs. destruct (Hret Hq) as [v Hv]. rewrite Hv.
      unfold extract_tweet_data in Hv.
      destruct (fast_path_not_200 w (fx_url url) Hs) as [[[|] H] | H];
        rewrite H in Hv; cbn [and_then try_except] in Hv; congruence.
    + intros Hf [H | H].
      * unfold extract_tweet_data. rewrite Hf, H. reflexivity.
      * now apply render_body_raise_gives_none.
  - intros H. unfold extract_tweet_data. rewrite H. reflexivity.
  - intros e m H.
    assert (Hrec : PyError e m = twitter_error).
    { unfold extract_tweet_data in H.
      destruct (fast_path w (fx_url url)) as [v | [|] |] eqn:Ef;
        cbn [and_then try_except] in H; try discriminate H.
      - inversion H; subst. exact (fast_path_error w _ _ _ Ef).
      - destruct (render_path_cases w) as [[[|] Hr] | [Hr | [Hne Hr]]];
          rewrite Hr in H; cbn [try_except] in H; try discriminate H.
        destruct (render_body w) as [v | [|] |] eqn:Eb; cbn [try_except] in H;
          try discriminate H; try contradiction.
        inversion H; subst. exact (render_body_error w _ _ Eb). }
    unfold twitter_error in Hrec. inversion Hrec. split; reflexivity.
Qed.

(** The theorem at work: a 404 answer, and a script that raises in the
    rendered page. *)
Lemma C9_extraction_always_returns_witness :
  (status_code Status404.w <> 200%Z
   /\ extract_tweet_data Status404.w Status404.url = Return PyNone)
  /\ (fast_path BrokenScript.w (fx_url Status404.url) = Next
      /\ render_body BrokenScript.w = Raise AnException
      /\ extract_tweet_data BrokenScript.w Status404.url = Return PyNone).
Proof.
  assert (H1 : status_code Status404.w <> 200%Z) by discriminate.
  assert (H2 : fast_path BrokenScript.w (fx_url Status404.url) = Next)
    by (vm_compute; reflexivity).
  assert (H3 : render_body BrokenScript.w = Raise AnException)
    by (vm_compute; reflexivity).
  assert (Q1 : forall c, raises Status404.w c <> Some ABaseException)
    by (intros c; discriminate).
  assert (Q2 : forall c, raises BrokenScript.w c <> Some ABaseException)
    by (intros c; destruct c; discriminate).
  split.
  - split; [exact H1 |].
    exact (proj1 (proj2 (proj1 (proj2 (proj2
             (C9_extraction_always_returns Status404.w Status404.url))) Q1))
             H1).
  - split; [exact H2 |]. split; [exact H3 |].
    exact (proj2 (proj2 (proj1 (proj2 (proj2
             (C9_extraction_always_returns BrokenScript.w Status404.url))) Q2))
             H2 (or_intror H3)).
Defined.

(* ================================================================== *)
(** ** The meta-tag tiers find no video *)
(* ================================================================== *)

Lemma fast_tier_shape (status : Z) (html url : string) (t : tweet) :
  fast_tier status html url = Return (PyTweet t) ->
  video_urls t = [] /\ media_urls t <> [].
Proof.
  unfold fast_tier. destruct (negb (Z.eqb status 200)); [discriminate |].
  destruct (_ && _); [discriminate |]. unfold meta_outcome.
  destruct (extract_from_meta_tags html url) as [md |] eqn:E; [| discriminate].
  destruct (media_urls md) eqn:Em; [discriminate |].
  intros H. inversion H; subst. exact (extract_from_meta_tags_shape _ _ _ E).
Qed.

Lemma rendered_meta_tier_shape (w : world) (t : tweet) :
  rendered_meta_tier w = Return (PyTweet t) ->
  video_urls t = [] /\ media_urls t <> [].
Proof.
  unfold rendered_meta_tier, doing.
  destruct (Js.md_has_meta _); cbn [andb]; [| discriminate].
  destruct (Js.md_media_urls (Js.evaluate_meta (meta_document w))) as [| u us] eqn:E;
    [discriminate |].
  destruct (raises w CloseAfterMeta); [discriminate |].
  destruct (raises w StopAfterMeta); [discriminate |].
  intros H. inversion H; subst. cbn [video_urls media_urls].
  split; [reflexivity | discriminate].
Qed.

(** C10.  A record returned by the meta-tag tier of the fast path or by
    the meta-tag tier of the rendered page has an empty video list; and
    it has at least one image, so a post that shows only a video does
    not end the extraction at these tiers. *)
Theorem C10_meta_tiers_have_no_videos
        (status : Z) (html url : string) (w : world) (t : tweet) :
  extract_from_meta_tags html url = Some t
  \/ fast_tier status html url = Return (PyTweet t)
  \/ rendered_meta_tier w = Return (PyTweet t) ->
  video_urls t = [] /\ media_urls t <> [].
Proof.
  intros [H | [H | H]].
  - exact (extract_from_meta_tags_shape _ _ _ H).
  - exact (fast_tier_shape _ _ _ _ H).
  - exact (rendered_meta_tier_shape _ _ H).
Qed.

(** The rendered page carries the image in a meta element. *)
Lemma C10_meta_tiers_have_no_videos_witness :
  rendered_meta_tier MetaOnly.w = Return (PyTweet MetaOnly.result)
  /\ video_urls MetaOnly.result = [] /\ media_urls MetaOnly.result <> [].
Proof.
  assert (H : rendered_meta_tier MetaOnly.w = Return (PyTweet MetaOnly.result))
    by (vm_compute; reflexivity).
  split; [exact H |].
  exact (C10_meta_tiers_have_no_videos 200 EmptyString EmptyString MetaOnly.w MetaOnly.result
           (or_intror (or_intror H))).
Defined.

(** X9.  Seen from the caller: a result with a video can only be the
    result of the article script. *)
Lemma videos_come_from_the_article (w : world) (url : string) (t : tweet) :
  extract_tweet_data w url = Return (PyTweet t) ->
  video_urls t <> [] ->
  article_script w = Some t.
Proof.
  intros H Hv. unfold extract_tweet_data in H.
  destruct (fast_path w (fx_url url)) as [v | [|] |] eqn:Ef;
    cbn [and_then try_except] in H; try discriminate H.
  - inversion H; subst. unfold fast_path, leaving in Ef.
    apply doing_return in Ef.
    destruct (raises w ClientExit); [discriminate Ef |].
    apply doing_return in Ef.
    destruct (fast_tier_shape _ _ _ _ Ef) as [E _]. contradiction.
  - destruct (render_path_cases w) as [[[|] Hr] | [Hr | [Hne Hr]]];
      rewrite Hr in H; cbn [try_except] in H; try discriminate H.
    destruct (render_body w) as [v | [|] |] eqn:Eb; cbn [try_except] in H;
      try discriminate H; try contradiction.
    inversion H; subst. clear H Hr Hne. unfold render_body in Eb.
    do 2 apply doing_return in Eb.
    destruct (rendered_meta_tier w) as [v | e |] eqn:Em; cbn [and_then] in Eb;
      [| discriminate Eb |].
    + inversion Eb; subst.
      destruct (rendered_meta_tier_shape _ _ Em) as [E _]. contradiction.
    + destruct (rendered_error_page w) as [v | e |] eqn:Ep;
        cbn [and_then] in Eb; [| discriminate Eb |].
      * inversion Eb; subst. unfold rendered_error_page in Ep.
        apply doing_return in Ep.
        destruct (Str.contains _ _); [| discriminate Ep].
        do 2 apply doing_return in Ep. discriminate Ep.
      * unfold article_tier in Eb. do 4 apply doing_return in Eb.
        destruct (article_script w) as [td |]; now inversion Eb.
Qed.

(* ================================================================== *)
(** ** The matcher against the reading of a pattern *)
(* ================================================================== *)

Section RegexFacts.
Import Re ReSpec.

Lemma append_nil_r (s : string) : s ++ EmptyString = s.
Proof. induction s; simpl; congruence. Qed.

Lemma append_assoc (a b c : string) : (a ++ b) ++ c = a ++ (b ++ c).
Proof. induction a; simpl; congruence. Qed.

Lemma length_append (a b : string) :
  String.length (a ++ b) = String.length a + String.length b.
Proof. induction a; simpl; congruence. Qed.

Lemma take_append (a b : string) : Str.take (String.length a) (a ++ b) = a.
Proof. induction a; simpl; [now destruct b | congruence]. Qed.

Lemma consumed_append (w s' : string) : consumed (w ++ s') s' = w.
Proof.
  unfold consumed. rewrite length_append.
  replace (String.length w + String.length s' - String.length s')
    with (String.length w) by lia.
  apply take_append.
Qed.

Lemma strip_prefix_Some (l s s' : string) :
  Str.strip_prefix l s = Some s' <-> s = l ++ s'.
Proof.
  revert s. induction l as [| a l IH]; intros s; simpl.
  - split; [intros H; now inversion H | intros ->; reflexivity].
  - destruct s as [| b s]; [split; discriminate |].
    destruct (Ascii.eqb_spec a b) as [-> | Hne].
    + rewrite IH. split; [intros ->; reflexivity | intros H; now inversion H].
    + split; [discriminate | intros H; inversion H; congruence].
Qed.

Section Sound.
Context {R : Type}.

Lemma plus_greedy_sound (p : ascii -> bool) (s : string)
      (k : string -> option R) (x : R) :
  plus_greedy p s k = Some x ->
  exists c w s', s = String c w ++ s' /\ p c = true
                 /\ all_chars p w = true /\ k s' = Some x.
Proof.
  revert x. induction s as [| c s IH]; simpl; intros x H; [discriminate |].
  destruct (p c) eqn:Ec; [| discriminate].
  destruct (plus_greedy p s k) as [y |] eqn:E.
  - inversion H; subst y. destruct (IH x eq_refl) as (d & w & s' & -> & Hd & Hw & Hk).
    exists c, (String d w), s'. simpl. rewrite Hd, Hw. auto.
  - exists c, EmptyString, s. auto.
Qed.

Lemma plus_lazy_sound (p : ascii -> bool) (s : string)
      (k : string -> option R) (x : R) :
  plus_lazy p s k = Some x ->
  exists c w s', s = String c w ++ s' /\ p c = true
                 /\ all_chars p w = true /\ k s' = Some x.
Proof.
  revert x. induction s as [| c s IH]; simpl; intros x H; [discriminate |].
  destruct (p c) eqn:Ec; [| discriminate].
  destruct (k s) as [y |] eqn:E.
  - inversion H; subst y. exists c, EmptyString, s. auto.
  - destruct (IH x H) as (d & w & s' & -> & Hd & Hw & Hk).
    exists c, (String d w), s'. simpl. rewrite Hd, Hw. auto.
Qed.

(** Whatever the matcher accepts is a match of the pattern. *)
Lemma matchk_sound (r : regex) :
  forall (s : string) (cs : caps) (k : string -> caps -> option R) (x : R),
    matchk r s cs k = Some x ->
    exists w s' cs', s = w ++ s' /\ derives r w cs cs' /\ k s' cs' = Some x.
Proof.
  induction r as [l | p | p | p | r IH | r1 IH1 r2 IH2 | r1 IH1 r2 IH2 | n r IH];
    intros s cs k x H; simpl in H.
  - destruct (Str.strip_prefix l s) as [s' |] eqn:E; [| discriminate].
    apply strip_prefix_Some in E. exists l, s', cs. repeat split; auto. constructor.
  - destruct s as [| c s]; [discriminate |].
    destruct (p c) eqn:Ec; [| discriminate].
    exists (String c EmptyString), s, cs. repeat split; auto. now constructor.
  - apply plus_greedy_sound in H. destruct H as (c & w & s' & -> & Hc & Hw & Hk).
    exists (String c w), s', cs. repeat split; auto. now constructor.
  - apply plus_lazy_sound in H. destruct H as (c & w & s' & -> & Hc & Hw & Hk).
    exists (String c w), s', cs. repeat split; auto. now constructor.
  - destruct (matchk r s cs k) as [y |] eqn:E.
    + inversion H; subst y. destruct (IH _ _ _ _ E) as (w & s' & cs' & -> & Hd & Hk).
      exists w, s', cs'. repeat split; auto. now apply D_opt_take.
    + exists EmptyString, s, cs. repeat split; auto. constructor.
  - destruct (matchk r1 s cs k) as [y |] eqn:E.
    + inversion H; subst y. destruct (IH1 _ _ _ _ E) as (w & s' & cs' & -> & Hd & Hk).
      exists w, s', cs'. repeat split; auto. now apply D_alt_l.
    + destruct (IH2 _ _ _ _ H) as (w & s' & cs' & -> & Hd & Hk).
      exists w, s', cs'. repeat split; auto. now apply D_alt_r.
  - destruct (IH1 _ _ _ _ H) as (w1 & s1 & cs1 & -> & Hd1 & Hk1).
    destruct (IH2 _ _ _ _ Hk1) as (w2 & s2 & cs2 & -> & Hd2 & Hk2).
    exists (w1 ++ w2), s2, cs2. rewrite append_assoc. repeat split; auto.
    econstructor; eauto.
  - destruct (IH _ _ _ _ H) as (w & s' & cs' & -> & Hd & Hk).
    rewrite consumed_append in Hk.
    exists w, s', ((n, w) :: cs'). repeat split; auto. now constructor.
Qed.

Lemma plus_greedy_step (p : ascii -> bool) (c : ascii) (s : string)
      (k : string -> option R) :
  plus_greedy p (String c s) k
  = if p c then match plus_greedy p s k with
                | Some x => Some x
                | None => k s
                end
    else None.
Proof. reflexivity. Qed.

Lemma plus_lazy_step (p : ascii -> bool) (c : ascii) (s : string)
      (k : string -> option R) :
  plus_lazy p (String c s) k
  = if p c then match k s with
                | Some x => Some x
                | None => plus_lazy p s k
                end
    else None.
Proof. reflexivity. Qed.

Lemma plus_greedy_complete (p : ascii -> bool) (w s' : string)
      (k : string -> option R) (c : ascii) :
  p c = true -> all_chars p w = true -> k s' <> None ->
  plus_greedy p (String c w ++ s') k <> None.
Proof.
  revert c. induction w as [| d w IH]; intros c Hc Hw Hk;
    change (String c ?x ++ s') with (String c (x ++ s'));
    cbn [append]; rewrite plus_greedy_step, Hc.
  - destruct (plus_greedy p s' k); [discriminate | exact Hk].
  - simpl in Hw. apply andb_prop in Hw. destruct Hw as [Hd Hw].
    specialize (IH d Hd Hw Hk). cbn [append] in IH.
    destruct (plus_greedy p (String d (w ++ s')) k); [discriminate | contradiction].
Qed.

Lemma plus_lazy_complete (p : ascii -> bool) (w s' : string)
      (k : string -> option R) (c : ascii) :
  p c = true -> all_chars p w = true -> k s' <> None ->
  plus_lazy p (String c w ++ s') k <> None.
Proof.
  revert c. induction w as [| d w IH]; intros c Hc Hw Hk;
    cbn [append]; rewrite plus_lazy_step, Hc.
  - destruct (k s'); [discriminate | contradiction].
  - simpl in Hw. apply andb_prop in Hw. destruct Hw as [Hd Hw].
    specialize (IH d Hd Hw Hk). cbn [append] in IH.
    destruct (k (String d (w ++ s'))); [discriminate | exact IH].
Qed.

(** Whenever the pattern can match a prefix after which the rest of the
    work succeeds, the matcher finds a match. *)
Lemma matchk_complete (r : regex) (w : string) (cs cs1 : caps) :
  derives r w cs cs1 ->
  forall (s' : string) (k : string -> caps -> option R) (cs0 : caps),
    (forall t, k s' t <> None) -> matchk r (w ++ s') cs0 k <> None.
Proof.
  induction 1 as [l cs | p c cs Hc | p c w cs Hc Hw | p c w cs Hc Hw
                  | r cs | r w cs cs' _ IH | r1 r2 w cs cs' _ IH
                  | r1 r2 w cs cs' _ IH
                  | r1 r2 w1 w2 cs cs1 cs2 _ IH1 _ IH2 | n r w cs cs' _ IH];
    intros s' k cs0 Hk; simpl.
  - rewrite (proj2 (strip_prefix_Some l (l ++ s') s') eq_refl). apply Hk.
  - rewrite Hc. apply Hk.
  - apply (plus_greedy_complete p w s' (fun t => k t cs0) c Hc Hw). apply Hk.
  - apply (plus_lazy_complete p w s' (fun t => k t cs0) c Hc Hw). apply Hk.
  - destruct (matchk r s' cs0 k); [discriminate | apply Hk].
  - specialize (IH s' k cs0 Hk).
    destruct (matchk r (w ++ s') cs0 k); [discriminate | contradiction].
  - specialize (IH s' k cs0 Hk).
    destruct (matchk r1 (w ++ s') cs0 k); [discriminate | contradiction].
  - specialize (IH s' k cs0 Hk).
    destruct (matchk r1 (w ++ s') cs0 k); [discriminate | exact IH].
  - rewrite append_assoc. apply IH1. intros t. apply IH2. exact Hk.
  - apply IH. intros t. apply Hk.
Qed.
End Sound.

Lemma match_here_sound (r : regex) (s rest : string) (cs : caps) :
  match_here r s = Some (rest, cs) ->
  exists w, s = w ++ rest /\ derives r w [] cs.
Proof.
  unfold match_here. intros H. apply matchk_sound in H.
  destruct H as (w & s' & cs' & -> & Hd & Hk). inversion Hk; subst.
  now exists w.
Qed.

Lemma match_here_complete (r : regex) (w rest : string) (cs cs' : caps) :
  derives r w cs cs' -> match_here r (w ++ rest) <> None.
Proof.
  intros Hd. unfold match_here.
  apply (matchk_complete r w cs cs' Hd). intros t. discriminate.
Qed.

(** [re.search] finds a match exactly when some part of the text is one. *)
Lemma search_sound (r : regex) (s rest : string) (cs : caps) :
  search r s = Some (rest, cs) ->
  exists a w, s = a ++ w ++ rest /\ derives r w [] cs.
Proof.
  induction s as [| c s IH]; simpl.
  - destruct (match_here r EmptyString) as [[rest' cs'] |] eqn:E; [| discriminate].
    intros H. inversion H; subst. apply match_here_sound in E.
    destruct E as (w & E & Hd). exists EmptyString, w. now split.
  - destruct (match_here r (String c s)) as [[rest' cs'] |] eqn:E.
    + intros H. inversion H; subst. apply match_here_sound in E.
      destruct E as (w & E & Hd). exists EmptyString, w. now split.
    + intros H. destruct (IH H) as (a & w & -> & Hd).
      exists (String c a), w. now split.
Qed.

Lemma search_complete (r : regex) (a w rest : string) (cs cs' : caps) :
  derives r w cs cs' -> search r (a ++ w ++ rest) <> None.
Proof.
  intros Hd. induction a as [| c a IH].
  - cbn [append]. pose proof (match_here_complete r w rest cs cs' Hd) as H.
    destruct (w ++ rest) as [| d t] eqn:E; simpl;
      destruct (match_here r _); try discriminate; contradiction.
  - cbn [append]. simpl.
    destruct (match_here r (String c (a ++ w ++ rest))); [discriminate | exact IH].
Qed.

Lemma search_None_tail (r : regex) (c : ascii) (s : string) :
  search r (String c s) = None -> search r s = None.
Proof. simpl. destruct (match_here r (String c s)); [discriminate | auto]. Qed.

Lemma search_None_here (r : regex) (s : string) :
  search r s = None -> match_here r s = None.
Proof.
  destruct s; simpl; destruct (match_here r _); try discriminate; auto.
Qed.

(** What [re.search] does not find, [re.findall] does not find either. *)
Lemma findall_from_nothing (r : regex) (s : string) :
  search r s = None -> forall k, findall_from r k s = [].
Proof.
  induction s as [| c s IH]; intros H k.
  - destruct k; simpl; [| reflexivity].
    apply search_None_here in H. now rewrite H.
  - pose proof (search_None_here _ _ H) as Hh.
    apply search_None_tail in H.
    destruct k; simpl; [| apply IH, H]. rewrite Hh. apply IH, H.
Qed.

(** Every item of [re.findall] is group 1 of a match somewhere in the text. *)
Lemma findall_from_sound (r : regex) (s : string) :
  forall (k : nat) (g : string),
    In g (findall_from r k s) ->
    exists a w rest cs, s = a ++ w ++ rest /\ derives r w [] cs /\ g = group1 cs.
Proof.
  induction s as [| c s IH]; intros k g H.
  - destruct k; simpl in H; [| contradiction].
    destruct (match_here r EmptyString) as [[rest cs] |] eqn:E; [| contradiction].
    destruct H as [<- | []]. apply match_here_sound in E.
    destruct E as (w & E & Hd). exists EmptyString, w, rest, cs. auto.
  - destruct k as [| k]; simpl in H.
    + destruct (match_here r (String c s)) as [[rest cs] |] eqn:E.
      * destruct H as [<- | H].
        -- apply match_here_sound in E. destruct E as (w & E & Hd).
           exists EmptyString, w, rest, cs. auto.
        -- destruct (IH _ _ H) as (a & w & rest' & cs' & -> & Hd & ->).
           exists (String c a), w, rest', cs'. auto.
      * destruct (IH _ _ H) as (a & w & rest' & cs' & -> & Hd & ->).
        exists (String c a), w, rest', cs'. auto.
    + destruct (IH _ _ H) as (a & w & rest' & cs' & -> & Hd & ->).
      exists (String c a), w, rest', cs'. auto.
Qed.

Lemma contains_here (l b : string) : Str.startswith l (l ++ b) = true.
Proof.
  induction l as [| c l IH]; simpl; [reflexivity |].
  now rewrite Ascii.eqb_refl, IH.
Qed.

Lemma contains_middle (a l b : string) : Str.contains l (a ++ l ++ b) = true.
Proof.
  induction a as [| c a IH].
  - cbn [append]. destruct (l ++ b) eqn:E; simpl; rewrite <- E;
      now rewrite contains_here.
  - cbn [append]. simpl. rewrite IH. apply orb_true_r.
Qed.

Lemma derives_lit_inv (l w : string) (cs cs' : caps) :
  derives (Lit l) w cs cs' -> w = l /\ cs' = cs.
Proof. intros H. inversion H; subst. auto. Qed.

Lemma derives_cls_inv (p : ascii -> bool) (w : string) (cs cs' : caps) :
  derives (Cls p) w cs cs' ->
  exists c, w = String c EmptyString /\ cs' = cs /\ p c = true.
Proof. intros H. inversion H; subst. eauto. Qed.

Lemma derives_plus_inv (p : ascii -> bool) (w : string) (cs cs' : caps) :
  derives (Plus p) w cs cs' ->
  exists c g, w = String c g /\ cs' = cs /\ all_chars p (String c g) = true.
Proof.
  intros H. inversion H as [| | q c g t Hc Hg | | | | | | |]; subst.
  exists c, g. simpl. repeat split; auto. now rewrite Hc, Hg.
Qed.

Lemma derives_plus_lazy_inv (p : ascii -> bool) (w : string) (cs cs' : caps) :
  derives (PlusLazy p) w cs cs' ->
  exists c g, w = String c g /\ cs' = cs /\ all_chars p (String c g) = true.
Proof.
  intros H. inversion H as [| | | q c g t Hc Hg | | | | | |]; subst.
  exists c, g. simpl. repeat split; auto. now rewrite Hc, Hg.
Qed.

Lemma derives_cat_inv (r1 r2 : regex) (w : string) (cs cs' : caps) :
  derives (Cat r1 r2) w cs cs' ->
  exists w1 w2 cs1, w = w1 ++ w2 /\ derives r1 w1 cs cs1 /\ derives r2 w2 cs1 cs'.
Proof. intros H. inversion H; subst. eauto 6. Qed.

Lemma derives_grp_inv (n : nat) (r : regex) (w : string) (cs cs' : caps) :
  derives (Grp n r) w cs cs' ->
  exists cs1, cs' = (n, w) :: cs1 /\ derives r w cs cs1.
Proof. intros H. inversion H; subst. eauto. Qed.

Lemma derives_opt_inv (r : regex) (w : string) (cs cs' : caps) :
  derives (Opt r) w cs cs' ->
  (w = EmptyString /\ cs' = cs) \/ derives r w cs cs'.
Proof. intros H. inversion H; subst; auto. Qed.

Lemma derives_alt_inv (r1 r2 : regex) (w : string) (cs cs' : caps) :
  derives (Alt r1 r2) w cs cs' -> derives r1 w cs cs' \/ derives r2 w cs cs'.
Proof. intros H. inversion H; subst; auto. Qed.

Ltac invert_derives :=
  repeat match goal with
         | H : derives (Cat _ _) _ _ _ |- _ =>
             apply derives_cat_inv in H;
             let w1 := fresh "w" in let w2 := fresh "w" in
             let c := fresh "cs" in
             destruct H as (w1 & w2 & c & -> & ? & ?)
         | H : derives (Lit _) _ _ _ |- _ =>
             apply derives_lit_inv in H; destruct H as (-> & ->)
         | H : derives (Cls _) _ _ _ |- _ =>
             apply derives_cls_inv in H;
             let c := fresh "c" in destruct H as (c & -> & -> & ?)
         | H : derives (Plus _) _ _ _ |- _ =>
             apply derives_plus_inv in H;
             let c := fresh "c" in let g := fresh "g" in
             destruct H as (c & g & -> & -> & ?)
         | H : derives (PlusLazy _) _ _ _ |- _ =>
             apply derives_plus_lazy_inv in H;
             let c := fresh "c" in let g := fresh "g" in
             destruct H as (c & g & -> & -> & ?)
         | H : derives (Grp _ _) _ _ _ |- _ =>
             apply derives_grp_inv in H;
             let c := fresh "cs" in destruct H as (c & -> & ?)
         | H : derives (Opt _) _ _ _ |- _ =>
             apply derives_opt_inv in H; destruct H as [(-> & ->) | H]
         | H : derives (Alt _ _) _ _ _ |- _ =>
             apply derives_alt_inv in H; destruct H as [H | H]
         end.

Lemma all_chars_nonempty_cons (p : ascii -> bool) (c : ascii) (g : string) :
  String c g <> EmptyString.
Proof. discriminate. Qed.

Lemma meta_key_then_content_shape (key value w : string) (cs cs' : caps) :
  derives (Pat.meta_key_then_content key value) w cs cs' ->
  exists a b g, w = a ++ value ++ b /\ cs' = (1, g) :: cs
                /\ g <> EmptyString /\ all_chars not_quote g = true.
Proof.
  unfold Pat.meta_key_then_content. cbn [cat]. intros H. invert_derives.
  match goal with
  | |- exists a b g, ?pre ++ ?x ++ key ++ ?e ++ ?q ++ value ++ ?rest = _ /\
                     (1, ?grp) :: _ = _ /\ _ =>
      exists (pre ++ x ++ key ++ e ++ q), rest, grp
  end.
  repeat split; try assumption; try discriminate.
  repeat rewrite append_assoc. reflexivity.
Qed.

Lemma meta_content_then_key_shape (key value w : string) (cs cs' : caps) :
  derives (Pat.meta_content_then_key key value) w cs cs' ->
  exists a b g, w = a ++ value ++ b /\ cs' = (1, g) :: cs
                /\ g <> EmptyString /\ all_chars not_quote g = true.
Proof.
  unfold Pat.meta_content_then_key. cbn [cat]. intros H. invert_derives.
  match goal with
  | |- exists a b g, ?p1 ++ ?p2 ++ ?p3 ++ ?p4 ++ ?grp ++ ?p6 ++ ?p7 ++ key
                       ++ ?p8 ++ ?p9 ++ value ++ ?rest = _ /\ _ =>
      exists (p1 ++ p2 ++ p3 ++ p4 ++ grp ++ p6 ++ p7 ++ key ++ p8 ++ p9),
        rest, grp
  end.
  repeat split; try assumption; try discriminate.
  repeat rewrite append_assoc. reflexivity.
Qed.

Lemma title_handle_shape (w : string) (cs cs' : caps) :
  derives Pat.title_handle w cs cs' ->
  exists g, cs' = (1, "@" ++ g) :: cs /\ g <> EmptyString
            /\ all_chars word g = true.
Proof.
  unfold Pat.title_handle. cbn [cat]. intros H. invert_derives.
  eexists. repeat split; try eassumption. discriminate.
Qed.

Lemma url_handle_shape (w : string) (cs cs' : caps) :
  derives Pat.url_handle w cs cs' ->
  exists g, cs' = (1, g) :: cs /\ g <> EmptyString /\ all_chars word g = true.
Proof.
  unfold Pat.url_handle. cbn [cat]. intros H. invert_derives.
  eexists. repeat split; try eassumption. discriminate.
Qed.

Lemma tweet_video_shape (w : string) (cs cs' : caps) :
  derives Pat.tweet_video w cs cs' ->
  exists g, cs' = (1, g) :: cs /\ g <> EmptyString
            /\ all_chars word_dash g = true.
Proof.
  unfold Pat.tweet_video. cbn [cat]. intros H. invert_derives;
    eexists; (repeat split; try eassumption); discriminate.
Qed.

Lemma group_head (n : nat) (v : string) (cs : caps) :
  group n ((n, v) :: cs) = Some v.
Proof. simpl. now rewrite Nat.eqb_refl. Qed.

(** *** The fast path, read through its patterns *)

(** *** What the patterns of the meta-tag parser capture *)

Lemma search_group_url_handle (s seg : string) :
  search_group 1 Pat.url_handle s = Some seg ->
  seg <> EmptyString /\ all_chars word seg = true.
Proof.
  unfold search_group. destruct (search Pat.url_handle s) as [[rest cs] |] eqn:E;
    [| discriminate].
  apply search_sound in E. destruct E as (a & w & _ & Hd).
  apply url_handle_shape in Hd. destruct Hd as (g & -> & Hne & Hg).
  rewrite group_head. intros H. inversion H; subst. auto.
Qed.

Lemma search_group_title_handle (s h : string) :
  search_group 1 Pat.title_handle s = Some h ->
  exists g, h = "@" ++ g /\ g <> EmptyString /\ all_chars word g = true.
Proof.
  unfold search_group.
  destruct (search Pat.title_handle s) as [[rest cs] |] eqn:E; [| discriminate].
  apply search_sound in E. destruct E as (a & w & _ & Hd).
  apply title_handle_shape in Hd. destruct Hd as (g & -> & Hne & Hg).
  rewrite group_head. intros H. inversion H; subst. exists g. auto.
Qed.

Lemma search_group_tweet_video (s id : string) :
  search_group 1 Pat.tweet_video s = Some id ->
  id <> EmptyString /\ all_chars word_dash id = true.
Proof.
  unfold search_group.
  destruct (search Pat.tweet_video s) as [[rest cs] |] eqn:E; [| discriminate].
  apply search_sound in E. destruct E as (a & w & _ & Hd).
  apply tweet_video_shape in Hd. destruct Hd as (g & -> & Hne & Hg).
  rewrite group_head. intros H. inversion H; subst. auto.
Qed.

(** a text in which the GIF pattern is found holds the word it starts
    with *)
Lemma search_group_tweet_video_word (s id : string) :
  search_group 1 Pat.tweet_video s = Some id ->
  Str.contains "tweet_video" s = true.
Proof.
  unfold search_group.
  destruct (search Pat.tweet_video s) as [[rest cs] |] eqn:E; [| discriminate].
  apply search_sound in E. destruct E as (a & w & -> & Hd). intros _.
  assert (Hw : exists b, w = "tweet_video" ++ b).
  { unfold Pat.tweet_video in Hd. cbn [cat] in Hd.
    invert_derives; eexists; reflexivity. }
  destruct Hw as [b ->]. rewrite append_assoc. apply contains_middle.
Qed.

Lemma findall_key_then_content (key value html u : string) :
  In u (findall (Pat.meta_key_then_content key value) html) ->
  quote_free u /\ Str.contains value html = true.
Proof.
  unfold findall. intros H. apply findall_from_sound in H.
  destruct H as (a & w & rest & cs & -> & Hd & ->).
  apply meta_key_then_content_shape in Hd.
  destruct Hd as (a' & b' & g & -> & -> & Hne & Hg).
  unfold group1. rewrite group_head. split; [now split |].
  rewrite (append_assoc a' _ rest), (append_assoc value b' rest),
    <- (append_assoc a a').
  apply contains_middle.
Qed.

Lemma findall_content_then_key (key value html u : string) :
  In u (findall (Pat.meta_content_then_key key value) html) ->
  quote_free u /\ Str.contains value html = true.
Proof.
  unfold findall. intros H. apply findall_from_sound in H.
  destruct H as (a & w & rest & cs & -> & Hd & ->).
  apply meta_content_then_key_shape in Hd.
  destruct Hd as (a' & b' & g & -> & -> & Hne & Hg).
  unfold group1. rewrite group_head. split; [now split |].
  rewrite (append_assoc a' _ rest), (append_assoc value b' rest),
    <- (append_assoc a a').
  apply contains_middle.
Qed.

Lemma fold_append_new_In (l acc : list string) (u : string) :
  In u (fold_left append_new l acc) -> In u acc \/ In u l.
Proof.
  revert acc. induction l as [| m l IH]; simpl; intros acc H; [now left |].
  apply IH in H. destruct H as [H | H]; [| now right; right].
  unfold append_new in H.
  destruct (Str.truthy m && negb (Str.mem m acc)); [| now left].
  apply in_app_or in H. destruct H as [H | [<- | []]]; [now left |].
  right. now left.
Qed.

(** Every address of [meta_image_urls] was captured by one of the four
    patterns, from a page that shows the marker. *)
Lemma meta_image_urls_In (html u : string) :
  In u (meta_image_urls html) ->
  quote_free u
  /\ (Str.contains "og:image" html = true
      \/ Str.contains "twitter:image" html = true).
Proof.
  unfold meta_image_urls. intros H.
  apply fold_append_new_In in H. destruct H as [H | H].
  2: { apply findall_content_then_key in H. destruct H; auto. }
  apply fold_append_new_In in H. destruct H as [H | H].
  2: { apply findall_key_then_content in H. destruct H; auto. }
  apply fold_append_new_In in H. destruct H as [H | H].
  2: { apply findall_content_then_key in H. destruct H; auto. }
  apply fold_append_new_In in H. destruct H as [[] | H].
  apply findall_key_then_content in H. destruct H; auto.
Qed.

(** X1.  Every record of the meta-tag parser has at least one image
    address; its addresses are pairwise different, none is empty and none
    holds a quote character. *)
Theorem fast_path_images_wellformed (html url : string) (t : tweet) :
  extract_from_meta_tags html url = Some t ->
  media_urls t <> []
  /\ NoDup (media_urls t)
  /\ Forall quote_free (media_urls t).
Proof.
  unfold extract_from_meta_tags.
  destruct (url_fallback url (title_author html)) as [name h].
  pose proof (meta_image_urls_NoDup html) as Hnd.
  assert (Hq : Forall quote_free (meta_image_urls html)).
  { apply Forall_forall. intros u Hu. now apply meta_image_urls_In in Hu. }
  destruct (meta_image_urls html) as [| u us]; [discriminate |].
  intros H. inversion H; subst. cbn [media_urls].
  repeat split; auto. discriminate.
Qed.

(** X2.  A page that shows neither [og:image] nor [twitter:image] gives
    no record: for such a page answered with status 200 the fast path ends
    with the error record when the page holds the error phrase, and falls
    through to the browser otherwise. *)
Theorem no_marker_no_record (html url : string) :
  Str.contains "og:image" html = false ->
  Str.contains "twitter:image" html = false ->
  extract_from_meta_tags html url = None
  /\ fast_tier 200 html url
     = if Str.contains "Something went wrong" html
       then Return twitter_error else Next.
Proof.
  intros Ho Ht.
  assert (E : meta_image_urls html = []).
  { destruct (meta_image_urls html) as [| u us] eqn:E; [reflexivity |].
    assert (Hin : In u (meta_image_urls html)) by (rewrite E; now left).
    apply meta_image_urls_In in Hin. destruct Hin as [_ [H | H]]; congruence. }
  assert (N : extract_from_meta_tags html url = None).
  { unfold extract_from_meta_tags. rewrite E.
    now destruct (url_fallback url (title_author html)). }
  split; [exact N |].
  unfold fast_tier, meta_outcome. rewrite Ho, N. cbn.
  now destruct (Str.contains "Something went wrong" html).
Qed.

(** X3.  The handle of a record of the meta-tag parser is an at-sign
    followed by one or more characters of [a-zA-Z0-9_], whether it comes
    from the title, from the URL or is the default [@unknown]. *)
Theorem fast_path_handle_shape (html url : string) (t : tweet) :
  extract_from_meta_tags html url = Some t -> plain_handle (handle t).
Proof.
  unfold extract_from_meta_tags.
  destruct (url_fallback url (title_author html)) as [name h] eqn:E.
  destruct (meta_image_urls html); [discriminate |].
  intros H. inversion H; subst. cbn [handle]. clear H.
  assert (Hu : plain_handle "@unknown").
  { exists "unknown". split; [reflexivity |]. split; [discriminate | reflexivity]. }
  assert (Ht : plain_handle (snd (title_author html))).
  { unfold title_author.
    destruct (search_group 1 Pat.og_title html) as [title |]; [| exact Hu].
    destruct (search_group 1 Pat.title_handle title) as [h' |] eqn:Eh; [| exact Hu].
    cbn [snd]. exact (search_group_title_handle _ _ Eh). }
  destruct (title_author html) as [n0 h0]. cbn [snd] in Ht.
  unfold url_fallback in E.
  destruct (String.eqb h0 "@unknown").
  - destruct (search_group 1 Pat.url_handle url) as [seg |] eqn:Es.
    + apply search_group_url_handle in Es. destruct Es as [Hne Hw].
      inversion E as [[E1 E2]]. exists seg. subst. split; [reflexivity | auto].
    + inversion E; subst. exact Ht.
  - inversion E; subst. exact Ht.
Qed.

(** *** The URL functions of media_extractor.py *)

Lemma derives_any_caps (r : regex) (w : string) (cs cs' : caps) :
  derives r w cs cs' -> forall ds, exists ds', derives r w ds ds'.
Proof.
  induction 1 as [l cs | p c cs Hc | p c w cs Hc Hw | p c w cs Hc Hw
                  | r cs | r w cs cs' _ IH | r1 r2 w cs cs' _ IH
                  | r1 r2 w cs cs' _ IH
                  | r1 r2 w1 w2 cs cs1 cs2 _ IH1 _ IH2 | n r w cs cs' _ IH];
    intros ds.
  - exists ds. constructor.
  - exists ds. now constructor.
  - exists ds. now constructor.
  - exists ds. now constructor.
  - exists ds. constructor.
  - destruct (IH ds) as [ds' H]. exists ds'. now apply D_opt_take.
  - destruct (IH ds) as [ds' H]. exists ds'. now apply D_alt_l.
  - destruct (IH ds) as [ds' H]. exists ds'. now apply D_alt_r.
  - destruct (IH1 ds) as [ds1 H1]. destruct (IH2 ds1) as [ds2 H2].
    exists ds2. econstructor; eauto.
  - destruct (IH ds) as [ds' H]. exists ((n, w) :: ds'). now constructor.
Qed.

Lemma matched_cat (r1 r2 : regex) (w1 w2 : string) :
  matched_by r1 w1 -> matched_by r2 w2 -> matched_by (Cat r1 r2) (w1 ++ w2).
Proof.
  intros (cs & cs1 & H1) (ds & ds' & H2).
  destruct (derives_any_caps _ _ _ _ H2 cs1) as [cs2 H2'].
  exists cs, cs2. econstructor; eauto.
Qed.

Lemma matched_cat_inv (r1 r2 : regex) (w : string) :
  matched_by (Cat r1 r2) w ->
  exists w1 w2, w = w1 ++ w2 /\ matched_by r1 w1 /\ matched_by r2 w2.
Proof.
  intros (cs & cs' & H). apply derives_cat_inv in H.
  destruct H as (w1 & w2 & cs1 & -> & H1 & H2).
  exists w1, w2. repeat split; [exists cs, cs1 | exists cs1, cs']; assumption.
Qed.

Lemma matched_grp (n : nat) (r : regex) (w : string) :
  matched_by (Grp n r) w <-> matched_by r w.
Proof.
  split; intros (cs & cs' & H).
  - apply derives_grp_inv in H. destruct H as (cs1 & -> & H). now exists cs, cs1.
  - exists cs, ((n, w) :: cs'). now constructor.
Qed.

Lemma matched_opt (r : regex) (w : string) :
  matched_by (Opt r) w <-> w = EmptyString \/ matched_by r w.
Proof.
  split.
  - intros (cs & cs' & H). apply derives_opt_inv in H.
    destruct H as [[-> _] | H]; [now left | right; now exists cs, cs'].
  - intros [-> | (cs & cs' & H)].
    + exists [], []. constructor.
    + exists cs, cs'. now apply D_opt_take.
Qed.

Lemma matched_alt (r1 r2 : regex) (w : string) :
  matched_by (Alt r1 r2) w <-> matched_by r1 w \/ matched_by r2 w.
Proof.
  split.
  - intros (cs & cs' & H). apply derives_alt_inv in H.
    destruct H as [H | H]; [left | right]; now exists cs, cs'.
  - intros [(cs & cs' & H) | (cs & cs' & H)]; exists cs, cs';
      [now apply D_alt_l | now apply D_alt_r].
Qed.



(** [re.search] succeeds exactly on the texts that hold a match *)
Lemma found_iff (r : regex) (text : string) :
  Urls.found r text = true <->
  exists a w b, text = a ++ w ++ b /\ matched_by r w.
Proof.
  unfold Urls.found. split.
  - destruct (search r text) as [[rest cs] |] eqn:E; [| discriminate].
    intros _. apply search_sound in E. destruct E as (a & w & -> & Hd).
    exists a, w, rest. split; [reflexivity | now exists [], cs].
  - intros (a & w & b & -> & cs & cs' & Hd).
    pose proof (search_complete r a w b cs cs' Hd) as H.
    destruct (search r (a ++ w ++ b)); [reflexivity | contradiction].
Qed.



(** X19.  Whenever [extract_twitter_url] finds an address in a text,
    [is_twitter_url] accepts that text: the message handler never extracts
    from a text it would have ignored. *)
Theorem extracted_url_is_recognised (text u : string) :
  Urls.extract_twitter_url text = Some u -> Urls.is_twitter_url text = true.
Proof.
  unfold Urls.extract_twitter_url, search_group.
  destruct (search Urls.full_url text) as [[rest cs] |] eqn:E; [| discriminate].
  intros _. apply search_sound in E. destruct E as (a & w & -> & Hd).
  assert (Hm : matched_by Urls.full_url w) by now exists [], cs. clear Hd cs.
  unfold Urls.full_url in Hm. apply matched_grp in Hm.
  apply matched_cat_inv in Hm. destruct Hm as (w1 & t1 & -> & Hs & Hm).
  apply matched_cat_inv in Hm. destruct Hm as (w2 & t2 & -> & Hw & Hm).
  apply matched_cat_inv in Hm. destruct Hm as (w3 & w4 & -> & Hdom & Hp).
  assert (Hs' : matched_by (Opt (Grp 1 Urls.scheme)) w1)
    by (apply matched_opt; right; now apply matched_grp).
  assert (Hw' : matched_by (Opt (Grp 2 Urls.www)) w2).
  { apply matched_opt. apply matched_opt in Hw.
    destruct Hw as [-> | Hw]; [now left | right; now apply matched_grp]. }
  unfold Urls.is_twitter_url.
  apply matched_alt in Hdom. destruct Hdom as [Hd | Hdom].
  2: apply matched_alt in Hdom; destruct Hdom as [Hd | Hdom].
  3: destruct (Urls.found Urls.source_domains _); [reflexivity |].
  1, 2: replace (Urls.found Urls.source_domains _) with true; [reflexivity |].
  1, 2: symmetry; apply found_iff; exists a, (w1 ++ w2 ++ w3 ++ w4), rest;
    (split; [reflexivity |]); unfold Urls.source_domains;
    repeat (apply matched_cat; try assumption);
    apply matched_grp, matched_alt; auto.
  replace (Urls.found Urls.mirror_domains _) with true; [reflexivity |].
  symmetry; apply found_iff; exists a, (w1 ++ w2 ++ w3 ++ w4), rest;
    (split; [reflexivity |]); unfold Urls.mirror_domains;
    repeat (apply matched_cat; try assumption);
    apply matched_grp. exact Hdom.
Qed.




End RegexFacts.

(* ================================================================== *)
(** ** The article script and the rendered meta tier *)
(* ================================================================== *)

Lemma firstn_In {A : Type} (n : nat) (l : list A) (x : A) :
  In x (firstn n l) -> In x l.
Proof.
  revert l. induction n as [| n IH]; intros [| a l] H; simpl in H; try contradiction.
  destruct H as [-> | H]; [now left | right; now apply IH].
Qed.

Section ArticleShape.
Variable resolve : string -> string.
Variables pathname now : string.

Lemma qualifying_imgs_ok (article : Dom.node) :
  Forall photo_ok (Js.qualifying_imgs resolve article).
Proof.
  apply Forall_forall. intros u H. unfold Js.qualifying_imgs in H.
  repeat match type of H with
         | In _ (filter _ _) => apply filter_In in H; destruct H as [H ?]
         end.
  repeat match goal with
         | E : negb _ = true |- _ => apply negb_true_iff in E
         end.
  unfold photo_ok. auto.
Qed.

(** X5.  The article script returns at most four photos, whatever the
    page; none of them is empty and none is an avatar, a thumbnail of an
    amplify video, an emoji or a small profile image. *)
Theorem article_photos_bounded_and_filtered (document : Dom.node) (t : tweet) :
  Js.evaluate_article resolve pathname now document = Some t ->
  length (media_urls t) <= 4 /\ Forall photo_ok (media_urls t).
Proof.
  unfold Js.evaluate_article. fold article_selector.
  destruct (Dom.querySelector article_selector document) as [article |];
    [| discriminate].
  destruct (Js.location_fallback pathname (Js.block_author article)) as [name h].
  intros H. inversion H; subst. cbn [media_urls]. unfold Js.mediaImgs. split.
  - rewrite length_firstn. lia.
  - apply Forall_forall. intros u Hu. apply firstn_In in Hu.
    pose proof (qualifying_imgs_ok article) as Hq.
    rewrite Forall_forall in Hq. now apply Hq.
Qed.

Lemma find_some_holds {A : Type} (f : A -> bool) (l : list A) (x : A) :
  find f l = Some x -> f x = true.
Proof. intros H. now apply find_some in H. Qed.

Lemma block_author_shape (article : Dom.node) :
  let '(name, h) := Js.block_author article in
  Str.truthy name = true /\ Str.startswith "@" name = false
  /\ Str.startswith "@" h = true.
Proof.
  unfold Js.block_author.
  destruct (Dom.querySelector _ article) as [nameElement |];
    [| repeat split; reflexivity].
  set (texts := filter Str.truthy _).
  destruct (find (fun t => negb (Str.startswith "@" t) && Str.truthy t) texts)
    as [n |] eqn:En;
    destruct (find (Str.startswith "@") texts) as [h |] eqn:Eh.
  all: try (apply find_some_holds in En; apply andb_prop in En;
            destruct En as [En1 En2]; apply negb_true_iff in En1).
  all: try apply find_some_holds in Eh.
  all: repeat split; auto.
Qed.

(** X6.  In a result of the article script the name is never empty and
    never begins with an at-sign, and the handle always begins with one. *)
Theorem article_author_shape (document : Dom.node) (t : tweet) :
  Js.evaluate_article resolve pathname now document = Some t ->
  Str.truthy (username t) = true
  /\ Str.startswith "@" (username t) = false
  /\ Str.startswith "@" (handle t) = true.
Proof.
  unfold Js.evaluate_article. fold article_selector.
  destruct (Dom.querySelector article_selector document) as [article |];
    [| discriminate].
  pose proof (block_author_shape article) as Hb.
  destruct (Js.block_author article) as [n0 h0]. destruct Hb as (H1 & H2 & H3).
  unfold Js.location_fallback.
  destruct (String.eqb h0 "@unknown");
    [destruct (Re.search_group 1 Pat.url_handle pathname) |];
    intros H; inversion H; subst; cbn [username handle]; auto.
Qed.

Lemma videos_from_elements_truthy (article : Dom.node) :
  Forall (fun v => Str.truthy v = true) (Js.videos_from_elements resolve article []).
Proof.
  unfold Js.videos_from_elements.
  apply (fold_left_Forall (fun v => Str.truthy v = true)); [| constructor].
  intros acc video Hacc.
  apply (fold_left_Forall (fun v => Str.truthy v = true)).
  - intros acc' source Hacc'.
    destruct (Str.truthy (Js.src resolve source)) eqn:E; [| exact Hacc'].
    apply Forall_app. split; [exact Hacc' | now repeat constructor].
  - destruct (Str.truthy (Js.src resolve video)) eqn:E; [| exact Hacc].
    apply Forall_app. split; [exact Hacc | now repeat constructor].
Qed.

Lemma push_new_Forall (P : string -> Prop) (xs : list string) (v : string) :
  P v -> Forall P xs -> Forall P (push_new xs v).
Proof.
  intros Hv H. unfold push_new. destruct (Str.mem v xs); [exact H |].
  apply Forall_app. split; [exact H | now repeat constructor].
Qed.

Lemma push_new_if_has_Forall (P : string -> Prop) (part : string)
      (xs : list string) (o : option string) :
  (forall v, Str.truthy v = true -> Str.contains part v = true -> P v) ->
  Forall P xs -> Forall P (push_new_if_has part xs o).
Proof.
  intros HP H. unfold push_new_if_has. destruct o as [v |]; [| exact H].
  destruct (Str.truthy v) eqn:Et; [| exact H].
  destruct (Str.contains part v) eqn:Ec; [| exact H]. cbn [andb].
  apply push_new_Forall; auto.
Qed.

Lemma gif_video_url_on_host (id : string) :
  Str.contains "video.twimg.com" (Js.gif_video_url id) = true.
Proof. reflexivity. Qed.

Lemma videos_ok (article : Dom.node) :
  Forall (video_ok resolve article) (Js.videos resolve article).
Proof.
  assert (Hhost : forall v, Str.truthy v = true ->
                            Str.contains "video.twimg.com" v = true ->
                            video_ok resolve article v).
  { intros v Ht Hc. split; auto. }
  unfold Js.videos, Js.videos_from_containers, Js.videos_from_gifs,
    Js.videos_from_attributes.
  apply fold_left_Forall.
  { intros acc el. now apply push_new_if_has_Forall. }
  apply fold_left_Forall.
  { intros acc img Hacc. unfold Js.gif_step.
    destruct (js_or _ _) as [s |]; [| exact Hacc].
    destruct (Str.truthy s && Str.contains "tweet_video" s); [| exact Hacc].
    destruct (Re.search_group 1 Pat.tweet_video s) as [id |]; [| exact Hacc].
    apply push_new_Forall; [| exact Hacc]. apply Hhost; reflexivity. }
  apply fold_left_Forall.
  { intros acc el Hacc. apply push_new_if_has_Forall; [exact Hhost |].
    now apply push_new_if_has_Forall. }
  pose proof (videos_from_elements_truthy article) as Ht.
  apply Forall_forall. intros v Hv. rewrite Forall_forall in Ht.
  split; [now apply Ht | now left].
Qed.

(** X8.  Every [img] element below the article whose [src] attribute the
    GIF pattern matches, with identifier [videoId], puts the address
    [https://video.twimg.com/tweet_video/<videoId>.mp4] in the video list
    of the result exactly once, however many such elements carry the same
    identifier. *)
Theorem gif_video_listed_once (article : Dom.node)
        (attrs : list (string * string)) (kids : list Dom.node)
        (s videoId : string) :
  In (Dom.Elem "img" attrs kids) (Dom.descendants article) ->
  Dom.lookup "src" attrs = Some s ->
  Re.search_group 1 Pat.tweet_video s = Some videoId ->
  count_occ string_dec (unique (Js.videos resolve article))
            (Js.gif_video_url videoId) = 1.
Proof.
  intros Hin Hs Hm.
  pose proof (search_group_tweet_video_word _ _ Hm) as Hc.
  pose proof (contains_truthy "tweet_video" s eq_refl Hc) as Ht.
  apply (gif_video_of_selected_img resolve article (Dom.Elem "img" attrs kids)
           s videoId); [| | exact Hc | exact Hm].
  - unfold Dom.querySelectorAll. apply filter_In. split; [exact Hin |].
    cbn [Dom.matches Dom.getAttribute]. rewrite Hs, Hc. reflexivity.
  - unfold js_or, js_truthy. cbn [Dom.getAttribute]. rewrite Hs, Ht.
    reflexivity.
Qed.

(** X7.  The video list of the article script has no duplicates and no
    empty address; an address that is not the source of a [video] or
    [source] element lies on the host [video.twimg.com]. *)
Theorem article_videos_wellformed (document : Dom.node) (t : tweet) :
  Js.evaluate_article resolve pathname now document = Some t ->
  exists article,
    Dom.querySelector article_selector document = Some article
    /\ NoDup (video_urls t)
    /\ Forall (video_ok resolve article) (video_urls t).
Proof.
  unfold Js.evaluate_article. fold article_selector.
  destruct (Dom.querySelector article_selector document) as [article |];
    [| discriminate].
  destruct (Js.location_fallback pathname (Js.block_author article)) as [name h].
  intros H. inversion H; subst. cbn [video_urls]. exists article.
  split; [reflexivity |]. split; [apply unique_NoDup |].
  apply Forall_forall. intros v Hv. apply (proj1 (unique_In _ _)) in Hv.
  pose proof (videos_ok article) as Hok. rewrite Forall_forall in Hok.
  apply Hok. exact Hv.
Qed.
End ArticleShape.

Lemma allImages_truthy (document : Dom.node) :
  Forall (fun u => Str.truthy u = true) (Js.allImages document).
Proof.
  unfold Js.allImages. apply fold_left_Forall; [| constructor].
  intros acc meta H. destruct (Dom.getAttribute "content" meta) as [c |]; [| exact H].
  destruct (Str.truthy c) eqn:E; [| exact H]. now apply push_new_Forall.
Qed.

(** X4.  A record of the meta tier of the rendered page holds the image
    addresses of the page's meta elements: at least one, pairwise
    different, none empty; its timestamp is the text [Unknown]. *)
Theorem rendered_meta_images_wellformed (w : world) (t : tweet) :
  rendered_meta_tier w = Return (PyTweet t) ->
  media_urls t = Js.allImages (meta_document w)
  /\ media_urls t <> []
  /\ NoDup (media_urls t)
  /\ Forall (fun u => Str.truthy u = true) (media_urls t)
  /\ timestamp t = "Unknown".
Proof.
  unfold rendered_meta_tier, doing.
  destruct (Js.md_has_meta _); cbn [andb]; [| discriminate].
  assert (E : Js.md_media_urls (Js.evaluate_meta (meta_document w))
              = Js.allImages (meta_document w)).
  { unfold Js.evaluate_meta. now destruct (Js.meta_author _ _). }
  rewrite E.
  pose proof (allImages_NoDup (meta_document w)) as Hnd.
  pose proof (allImages_truthy (meta_document w)) as Ht.
  destruct (Js.allImages (meta_document w)) as [| u us] eqn:Ei; [discriminate |].
  destruct (raises w CloseAfterMeta); [discriminate |].
  destruct (raises w StopAfterMeta); [discriminate |].
  intros H. inversion H; subst. cbn [media_urls timestamp].
  repeat split; auto. discriminate.
Qed.

(* ================================================================== *)
(** ** The pipeline and the rewrite to the proxy host *)
(* ================================================================== *)

(** *** The fast path decides alone *)

(** X10.  When the fast path ends the extraction (with a record, with the
    error record or with [None]), the result does not depend on the
    browser: two worlds that agree on the HTTP exchange give the same
    result. *)
Theorem fast_decision_ignores_browser (w1 w2 : world) (url : string) :
  raises w1 ClientEnter = raises w2 ClientEnter ->
  raises w1 ClientGet = raises w2 ClientGet ->
  raises w1 ClientExit = raises w2 ClientExit ->
  status_code w1 = status_code w2 ->
  response_text w1 = response_text w2 ->
  fast_path w1 (fx_url url) <> Next ->
  extract_tweet_data w1 url = extract_tweet_data w2 url.
Proof.
  intros He Hg Hx Hs Ht Hn.
  assert (E : fast_path w2 (fx_url url) = fast_path w1 (fx_url url)).
  { unfold fast_path, leaving, doing. now rewrite He, Hg, Hx, Hs, Ht. }
  unfold extract_tweet_data. rewrite E.
  destruct (fast_path w1 (fx_url url)); [reflexivity | reflexivity | contradiction].
Qed.

(** *** The error page of the rendered tier *)

Lemma lower_append (a b : string) :
  Str.lower (a ++ b) = Str.lower a ++ Str.lower b.
Proof. induction a as [| c a IH]; simpl; [reflexivity | now rewrite IH]. Qed.

(** X11.  The error phrase of the rendered page is recognised in any
    mix of upper and lower case: when the meta tier found nothing and no
    call raises, a page content that holds the phrase ends the extraction
    with the error record. *)
Theorem rendered_error_page_any_case (w : world) (a p b : string) :
  raises w Goto = None -> raises w EvaluateMeta = None ->
  rendered_meta_tier w = Next ->
  raises w PageContent = None ->
  raises w CloseOnErrorPage = None -> raises w StopOnErrorPage = None ->
  page_content w = a ++ p ++ b ->
  Str.lower p = "something went wrong" ->
  render_body w = Return twitter_error.
Proof.
  intros Hg He Hm Hp Hc Hs Hpage Hlow.
  unfold render_body, doing. rewrite Hg, He, Hm. cbn [and_then].
  unfold rendered_error_page, doing. rewrite Hp, Hpage.
  rewrite !lower_append, Hlow, contains_middle, Hc, Hs. reflexivity.
Qed.

(** *** Canonicalization of the usual spellings *)

Lemma replace_from_absent (old new s : string) :
  Str.contains old s = false -> Str.replace_from old new 0 s = s.
Proof.
  induction s as [| c s IH]; [reflexivity |].
  cbn [Str.contains]. intros H. apply orb_false_elim in H. destruct H as [H1 H2].
  cbn [Str.replace_from]. rewrite H1. now rewrite IH.
Qed.

Lemma replace_absent (old new s : string) :
  Str.contains old s = false -> Str.replace old new s = s.
Proof.
  intros H. destruct old as [| c old].
  - destruct s; discriminate H.
  - unfold Str.replace. now apply replace_from_absent.
Qed.

(** without the longer text there is no occurrence of a text that ends it *)
Lemma contains_tail (c : ascii) (sub s : string) :
  Str.contains (String c sub) s = true -> Str.contains sub s = true.
Proof.
  induction s as [| d s IH].
  - simpl. discriminate.
  - cbn [Str.contains]. intros H. apply orb_prop in H. destruct H as [H | H].
    + cbn [Str.startswith] in H. apply andb_prop in H. destruct H as [_ H].
      apply orb_true_intro. right.
      destruct s as [| e s']; destruct sub as [| f sub']; cbn in *;
        try discriminate; try reflexivity.
      rewrite H. reflexivity.
    + apply IH in H. rewrite H. apply orb_true_r.
Qed.

(** X15.  An address that names neither [twitter.com] nor [x.com] is
    left as it is by both rewrites. *)
Theorem fx_url_untouched (u : string) :
  Str.contains "twitter.com" u = false -> Str.contains "x.com" u = false ->
  fx_url u = u /\ fixupx_url u = u.
Proof.
  intros Ht Hx.
  assert (Hv : Str.contains "vxtwitter.com" u = false).
  { destruct (Str.contains "vxtwitter.com" u) eqn:E; [| reflexivity].
    apply contains_tail in E. apply contains_tail in E. congruence. }
  unfold fx_url, fixupx_url.
  rewrite (replace_absent "twitter.com" _ u Ht).
  rewrite (replace_absent "x.com" _ u Hx).
  rewrite (replace_absent "twitter.com" _ u Ht).
  rewrite (replace_absent "vxtwitter.com" _ u Hv). auto.
Qed.

Section Spellings.
Variable path : string.
Hypothesis no_twitter : Str.contains "twitter.com" path = false.
Hypothesis no_x : Str.contains "x.com" path = false.

Lemma no_vxtwitter : Str.contains "vxtwitter.com" path = false.
Proof.
  destruct (Str.contains "vxtwitter.com" path) eqn:E; [| reflexivity].
  apply contains_tail in E. apply contains_tail in E. congruence.
Qed.

Lemma path_without_twitter :
  Str.replace_from "twitter.com" "fixupx.com" 0 path = path.
Proof. now apply replace_from_absent. Qed.

Lemma path_without_x : Str.replace_from "x.com" "fixupx.com" 0 path = path.
Proof. now apply replace_from_absent. Qed.

Lemma path_without_vxtwitter :
  Str.replace_from "vxtwitter.com" "fixupx.com" 0 path = path.
Proof. apply replace_from_absent, no_vxtwitter. Qed.

(** X12.  The rewrite of [extract_tweet_data] sends an [https://x.com/]
    address to the same path on [fixupx.com], when the path names no
    host of its own. *)
Theorem fx_url_of_x_com :
  fx_url ("https://x.com/" ++ path) = "https://fixupx.com/" ++ path.
Proof.
  unfold fx_url, Str.replace. cbn. rewrite path_without_twitter. cbn.
  rewrite path_without_x. reflexivity.
Qed.

(** X13.  The same rewrite sends an [https://twitter.com/] address to
    the host [fixupfixupx.com]: the second replacement applies to the
    text the first one has put in. *)
Theorem fx_url_of_twitter_com_path :
  fx_url ("https://twitter.com/" ++ path) = "https://fixupfixupx.com/" ++ path.
Proof.
  unfold fx_url, Str.replace. cbn. rewrite path_without_twitter. cbn.
  rewrite path_without_x. reflexivity.
Qed.

(** X14.  The rewrite of the sibling extractor sends the [x.com] and the
    [twitter.com] spelling of a post to one address on [fixupx.com]. *)
Theorem fixupx_url_spellings_agree :
  fixupx_url ("https://x.com/" ++ path) = "https://fixupx.com/" ++ path
  /\ fixupx_url ("https://twitter.com/" ++ path) = "https://fixupx.com/" ++ path.
Proof.
  unfold fixupx_url, Str.replace. split.
  - cbn. rewrite path_without_x. cbn. rewrite path_without_twitter. cbn.
    rewrite path_without_vxtwitter. reflexivity.
  - cbn. rewrite path_without_x. cbn. rewrite path_without_twitter. cbn.
    rewrite path_without_vxtwitter. reflexivity.
Qed.
End Spellings.

(* ================================================================== *)
(** ** The sibling extractor *)
(* ================================================================== *)

Section SiblingShape.
Import MediaExtractor.

(** *** The rewrite to the largest size *)

Lemma before_char_append_sep (sep : ascii) (s rest : string) :
  Str.before_char sep (Str.before_char sep s ++ String sep rest)
  = Str.before_char sep s.
Proof.
  induction s as [| c s IH]; simpl.
  - now rewrite Ascii.eqb_refl.
  - destruct (Ascii.eqb c sep) eqn:E; simpl.
    + now rewrite Ascii.eqb_refl.
    + now rewrite E, IH.
Qed.

(** X16.  Rewriting an address to the largest size twice gives what
    rewriting it once gives. *)
Theorem original_url_idempotent (s : string) :
  original_url (original_url s) = original_url s.
Proof.
  unfold original_url.
  change "?name=4096x4096" with (String "?"%char "name=4096x4096").
  now rewrite before_char_append_sep.
Qed.

Lemma before_char_clean (sep : ascii) (s : string) :
  Str.contains (String sep EmptyString) (Str.before_char sep s) = false.
Proof.
  induction s as [| c s IH]; simpl; [reflexivity |].
  destruct (Ascii.eqb c sep) eqn:E; simpl; [reflexivity |].
  rewrite Ascii.eqb_sym, E. simpl. exact IH.
Qed.

Lemma before_char_keeps_http (s : string) :
  Str.startswith "http" s = true ->
  Str.startswith "http" (Str.before_char "?"%char s) = true.
Proof.
  intros H.
  destruct s as [| c1 [| c2 [| c3 [| c4 s]]]]; cbn [Str.startswith] in H;
    repeat (apply andb_prop in H; destruct H as [? H]); try discriminate.
  repeat match goal with
         | E : Ascii.eqb _ _ = true |- _ => apply Ascii.eqb_eq in E; subst
         end.
  reflexivity.
Qed.

Lemma http_src_Some (el : Dom.node) (s : string) :
  http_src el = Some s -> Str.startswith "http" s = true.
Proof.
  unfold http_src. destruct (Dom.getAttribute "src" el) as [v |]; [| discriminate].
  destruct (Str.truthy v); cbn [andb]; [| discriminate].
  destruct (Str.startswith "http" v) eqn:E; [| discriminate].
  intros H. now inversion H; subst.
Qed.

Lemma startswith_append (p a b : string) :
  Str.startswith p a = true -> Str.startswith p (a ++ b) = true.
Proof.
  revert a. induction p as [| c p IH]; intros a H; [reflexivity |].
  destruct a as [| d a]; [discriminate H |]. cbn [Str.startswith append] in *.
  apply andb_prop in H. destruct H as [H1 H2]. now rewrite H1, IH.
Qed.

Lemma startswith_before_char (sep : ascii) (sub s : string) :
  Str.startswith sub (Str.before_char sep s) = true ->
  Str.startswith sub s = true.
Proof.
  revert s. induction sub as [| c sub IH]; intros s H; [reflexivity |].
  destruct s as [| d s]; [discriminate H |].
  cbn [Str.before_char] in H. destruct (Ascii.eqb d sep); [discriminate H |].
  cbn [Str.startswith] in *. apply andb_prop in H. destruct H as [H1 H2].
  now rewrite H1, IH.
Qed.

Lemma contains_before_char (sep : ascii) (sub s : string) :
  Str.contains sub (Str.before_char sep s) = true -> Str.contains sub s = true.
Proof.
  induction s as [| d s IH]; [auto |].
  intros H. cbn [Str.contains]. apply orb_true_intro.
  destruct (Str.startswith sub (String d s)) eqn:E; [now left | right].
  cbn [Str.before_char] in H. destruct (Ascii.eqb d sep) eqn:Ed.
  - destruct sub; [discriminate E | discriminate H].
  - cbn [Str.contains] in H. apply orb_prop in H. destruct H as [H | H].
    + assert (G : Str.startswith sub (Str.before_char sep (String d s)) = true)
        by (cbn [Str.before_char]; now rewrite Ed).
      apply startswith_before_char in G. congruence.
    + now apply IH.
Qed.

Lemma photo_step_ok (l : list media) (img : Dom.node) :
  Forall item_ok l -> Forall item_ok (photo_step l img).
Proof.
  intros H. unfold photo_step. destruct (http_src img) as [s |] eqn:Es; [| exact H].
  destruct (Str.contains "video_thumb" s) eqn:Ev; [exact H |].
  apply Forall_app. split; [exact H |]. constructor; [| constructor].
  apply http_src_Some in Es. unfold item_ok, original_url. cbn [url type]. split.
  - apply startswith_append. now apply before_char_keeps_http.
  - intros _. exists (Str.before_char "?"%char s). split; [reflexivity |]. split.
    + apply before_char_clean.
    + destruct (Str.contains "video_thumb" (Str.before_char "?"%char s)) eqn:E;
        [| reflexivity].
      apply contains_before_char in E. congruence.
Qed.

Lemma plain_step_ok (t : media_type) (l : list media) (el : Dom.node) :
  t <> photo -> Forall item_ok l -> Forall item_ok (plain_step t l el).
Proof.
  intros Ht H. unfold plain_step. destruct (http_src el) as [s |] eqn:Es; [| exact H].
  apply Forall_app. split; [exact H |]. constructor; [| constructor].
  apply http_src_Some in Es. split; [exact Es |]. intros E. now elim Ht.
Qed.

(** X17.  Every item the sibling extractor returns has an address that
    starts with [http]; the address of a photo is a base without question
    mark and without [video_thumb], followed by [?name=4096x4096]. *)
Theorem collect_items_wellformed (document : Dom.node) :
  Forall item_ok (collect document).
Proof.
  unfold collect. apply unique_media_Forall.
  apply fold_left_Forall;
    [intros acc a; apply plain_step_ok; discriminate |].
  apply fold_left_Forall;
    [intros acc a; apply plain_step_ok; discriminate |].
  apply fold_left_Forall; [exact photo_step_ok | constructor].
Qed.
End SiblingShape.

(* ================================================================== *)
(** ** The bot: addresses of a message, albums *)
(* ================================================================== *)

Section BotFacts.
Import ReSpec Bot.

(** *** Words of a message *)

Lemma split_words (s : string) : Forall is_word (Text.split s).
Proof.
  induction s as [| c s IH]; cbn [Text.split]; [constructor |].
  destruct (Str.py_space c) eqn:Ec; [exact IH |].
  assert (Hc : is_word (String c EmptyString)).
  { split; [discriminate |]. unfold Bot.not_space. simpl. now rewrite Ec. }
  destruct s as [| d s']; [repeat constructor; apply Hc |].
  destruct (Str.py_space d) eqn:Ed; [now constructor |].
  destruct (Text.split (String d s')) as [| w rest];
    [repeat constructor; apply Hc |].
  inversion IH as [| w' rest' [Hw1 Hw2] Hrest]; subst.
  constructor; [| exact Hrest]. split; [discriminate |].
  unfold Bot.not_space in *. simpl. now rewrite Ec, Hw2.
Qed.

Lemma lstrip_all_chars (p q : ascii -> bool) (s : string) :
  all_chars p s = true -> all_chars p (Str.lstrip q s) = true.
Proof.
  induction s as [| c s IH]; [auto |]. intros H. cbn [Str.lstrip].
  destruct (q c); [| exact H].
  simpl in H. apply andb_prop in H. now apply IH.
Qed.

Lemma rstrip_all_chars (p q : ascii -> bool) (s : string) :
  all_chars p s = true -> all_chars p (Str.rstrip q s) = true.
Proof.
  induction s as [| c s IH]; [auto |]. intros H. cbn [Str.rstrip].
  simpl in H. apply andb_prop in H. destruct H as [Hc Hs].
  specialize (IH Hs). destruct (Str.rstrip q s) as [| d r].
  - destruct (q c); [reflexivity | simpl; now rewrite Hc].
  - simpl. simpl in IH. now rewrite Hc, IH.
Qed.

Lemma startswith_first (sub s : string) (c : ascii) :
  Str.startswith (String c sub) s = true -> exists s', s = String c s'.
Proof.
  destruct s as [| d s]; [discriminate |]. cbn [Str.startswith].
  intros H. apply andb_prop in H. destruct H as [H _].
  apply Ascii.eqb_eq in H. subst. now exists s.
Qed.

(** stripping on the left keeps every occurrence of a text that does not
    begin with a stripped character *)
Lemma contains_lstrip (q : ascii -> bool) (c : ascii) (sub s : string) :
  q c = false ->
  Str.contains (String c sub) s = true ->
  Str.contains (String c sub) (Str.lstrip q s) = true.
Proof.
  intros Hq. induction s as [| d s IH]; [auto |].
  intros H. cbn [Str.lstrip]. destruct (q d) eqn:Ed; [| exact H].
  cbn [Str.contains] in H. apply orb_prop in H. destruct H as [H | H].
  - apply startswith_first in H. destruct H as [s' E]. inversion E; subst.
    congruence.
  - now apply IH.
Qed.

Lemma startswith_rstrip (q : ascii -> bool) (sub s : string) :
  all_chars (fun c => negb (q c)) sub = true ->
  Str.startswith sub s = true -> Str.startswith sub (Str.rstrip q s) = true.
Proof.
  revert s. induction sub as [| c sub IH]; intros s Hsub H; [reflexivity |].
  destruct s as [| d s]; [discriminate H |].
  cbn [Str.startswith] in H. apply andb_prop in H. destruct H as [Hcd Hs].
  apply Ascii.eqb_eq in Hcd. subst d.
  simpl in Hsub. apply andb_prop in Hsub. destruct Hsub as [Hc Hsub].
  apply negb_true_iff in Hc.
  specialize (IH s Hsub Hs). cbn [Str.rstrip].
  destruct (Str.rstrip q s) as [| e r] eqn:Er.
  - rewrite Hc. cbn [Str.startswith]. rewrite Ascii.eqb_refl.
    destruct sub; [reflexivity | discriminate IH].
  - cbn [Str.startswith]. now rewrite Ascii.eqb_refl.
Qed.

Lemma contains_nonempty (sub : string) (c : ascii) :
  Str.contains (String c sub) EmptyString = false.
Proof. reflexivity. Qed.

Lemma contains_rstrip (q : ascii -> bool) (c : ascii) (sub s : string) :
  all_chars (fun c => negb (q c)) (String c sub) = true ->
  Str.contains (String c sub) s = true ->
  Str.contains (String c sub) (Str.rstrip q s) = true.
Proof.
  intros Hsub. induction s as [| d s IH]; [auto |].
  intros H. cbn [Str.contains] in H. apply orb_prop in H.
  destruct H as [H | H].
  - apply (startswith_rstrip q) in H; [| exact Hsub].
    destruct (Str.rstrip q (String d s)) as [| e r];
      [discriminate H |]. cbn [Str.contains]. now rewrite H.
  - specialize (IH H). cbn [Str.rstrip].
    destruct (Str.rstrip q s) as [| e r]; [discriminate IH |].
    cbn [Str.contains]. cbn [Str.contains] in IH. rewrite IH.
    apply orb_true_r.
Qed.

Lemma contains_strip_chars (chars : string) (c : ascii) (sub s : string) :
  all_chars (fun c => negb (Text.char_in chars c)) (String c sub) = true ->
  Str.contains (String c sub) s = true ->
  Str.contains (String c sub) (Text.strip_chars chars s) = true.
Proof.
  intros Hsub H. unfold Text.strip_chars.
  apply contains_rstrip; [exact Hsub |]. apply contains_lstrip; [| exact H].
  simpl in Hsub. apply andb_prop in Hsub. destruct Hsub as [Hc _].
  now apply negb_true_iff in Hc.
Qed.

Lemma keep_url_ok (urls : list string) (word : string) :
  is_word word -> Forall url_ok urls -> Forall url_ok (Bot.keep_url urls word).
Proof.
  intros [_ Hw] H. unfold Bot.keep_url.
  destruct (Str.contains "twitter.com" word || Str.contains "x.com" word) eqn:E;
    [| exact H].
  destruct (Str.startswith "http" (Text.strip_chars "<>()" word)) eqn:Es;
    [| exact H].
  apply Forall_app. split; [exact H |]. constructor; [| constructor].
  split; [exact Es |]. split.
  - apply orb_prop in E. destruct E as [E | E]; [left | right];
      apply contains_strip_chars; auto.
  - unfold Text.strip_chars. now apply rstrip_all_chars, lstrip_all_chars.
Qed.

(** X21.  Every address the handler takes from a message starts with
    [http], still names [twitter.com] or [x.com] after the brackets are
    stripped, and holds no white space. *)
Theorem twitter_urls_wellformed (text : string) :
  Forall url_ok (Bot.twitter_urls text).
Proof.
  unfold Bot.twitter_urls.
  pose proof (split_words text) as Hw.
  assert (G : forall l acc, Forall is_word l -> Forall url_ok acc ->
                            Forall url_ok (fold_left Bot.keep_url l acc)).
  { clear. induction l as [| w l IH]; simpl; intros acc Hl Hacc; [exact Hacc |].
    inversion Hl; subst. apply IH; [assumption |]. now apply keep_url_ok. }
  apply G; [exact Hw | constructor].
Qed.

Section Album.
Variable get : fetcher.
Variable caption : string.

Lemma media_group_later (i : nat) (media_urls : list string) :
  Forall no_caption (media_group_from get (S i) media_urls caption).
Proof.
  revert i. induction media_urls as [| u rest IH]; intros i; simpl;
    [constructor |].
  destruct (download_file get u); [| apply IH].
  constructor; [| apply IH]. now destruct (is_video u).
Qed.

Lemma media_group_files (i : nat) (media_urls : list string) :
  map item_media (media_group_from get i media_urls caption)
  = downloaded get media_urls.
Proof.
  revert i. induction media_urls as [| u rest IH]; intros i; simpl;
    [reflexivity |].
  destruct (download_file get u); simpl; [| apply IH].
  rewrite IH. now destruct (is_video u).
Qed.

(** X22.  The album is built from the files that could be downloaded, in
    the order of the addresses.  Only its first item can carry the
    caption, and it does so exactly when the first address could be
    downloaded: if that download fails the album goes out without
    caption. *)
Theorem album_caption_on_first_download (media_urls : list string) :
  let media_group := media_group_from get 0 media_urls caption in
  map item_media media_group = downloaded get media_urls
  /\ length media_group <= length media_urls
  /\ Forall no_caption (tl media_group)
  /\ (forall u rest f,
         media_urls = u :: rest -> download_file get u = Some f ->
         exists m g, media_group = m :: g /\ item_media m = f
                     /\ item_caption_of m = Some caption)
  /\ (forall u rest,
         media_urls = u :: rest -> download_file get u = None ->
         Forall no_caption media_group).
Proof.
  cbv zeta. split; [apply media_group_files |]. split.
  { rewrite <- (length_map item_media), media_group_files.
    unfold downloaded. induction media_urls as [| u rest IH]; simpl; [lia |].
    rewrite length_app. destruct (download_file get u); simpl; lia. }
  split.
  { destruct media_urls as [| u rest]; simpl; [constructor |].
    destruct (download_file get u); simpl.
    - apply media_group_later.
    - pose proof (media_group_later 0 rest) as H.
      destruct (media_group_from get 1 rest caption); simpl; [constructor |].
      now inversion H. }
  split.
  - intros u rest f -> Hf. simpl. rewrite Hf.
    eexists. eexists. split; [reflexivity |]. now destruct (is_video u).
  - intros u rest -> Hf. simpl. rewrite Hf. apply media_group_later.
Qed.
End Album.

Section Sent.
Variable get : nat -> fetcher.
Variable accepts : reply -> bool.

Lemma say_Forall (P : reply -> Prop) (r : reply) (rest : run) :
  P r -> Forall P (fst rest) -> Forall P (fst (say accepts r rest)).
Proof.
  intros Hr H. unfold say. destruct (accepts r); simpl; [| constructor].
  now constructor.
Qed.

Lemma send_separately_ok (i n : nat) (media_urls : list string)
      (caption : string) :
  Forall album_size_ok (fst (send_separately get accepts i n media_urls caption)).
Proof.
  revert i. induction media_urls as [| u rest IH]; intros i; simpl;
    [constructor |].
  destruct (download_file (get 1) u); [| apply IH].
  apply say_Forall; [now destruct (is_video u) | apply IH].
Qed.

(** X23.  Whatever the extraction returned and whatever is downloaded or
    refused, an album that goes out holds between one and four items. *)
Theorem sent_album_has_one_to_four (tweet_data : tweet) (caption : string) :
  Forall album_size_ok (fst (send_media get accepts tweet_data caption)).
Proof.
  unfold send_media. destruct (all_media tweet_data) as [| m [| m2 rest]].
  - apply say_Forall; [exact I | constructor].
  - unfold _send_single_media. destruct (download_file (get 0) m) as [f |].
    + destruct (accepts _); [destruct (is_video m); repeat constructor |].
      apply say_Forall; [exact I | constructor].
    + apply say_Forall; [exact I | constructor].
  - unfold _send_media_album.
    set (urls := firstn 4 (m :: m2 :: rest)).
    pose proof (album_caption_on_first_download (get 0) caption urls)
      as (_ & Hlen & _).
    cbv zeta in Hlen.
    destruct (media_group_from (get 0) 0 urls caption) as [| g gs] eqn:E.
    + apply say_Forall; [exact I | constructor].
    + destruct (accepts _); [| apply send_separately_ok].
      constructor; [| constructor]. unfold album_size_ok.
      assert (length urls <= 4) by (unfold urls; rewrite length_firstn; lia).
      simpl in *. lia.
Qed.

(** X24.  With four or more photos in the result, the album is built from
    the first four photos alone: no address of the video list is sent. *)
Theorem four_photos_crowd_out_videos (tweet_data : tweet) (caption : string) :
  4 <= length (media_urls tweet_data) ->
  send_media get accepts tweet_data caption
  = _send_media_album get accepts (firstn 4 (media_urls tweet_data)) caption.
Proof.
  intros H. unfold send_media, all_media.
  assert (E : firstn 4 (media_urls tweet_data ++ video_urls tweet_data)
              = firstn 4 (media_urls tweet_data)).
  { rewrite firstn_app.
    replace (4 - length (media_urls tweet_data)) with 0 by lia.
    now rewrite app_nil_r. }
  destruct (media_urls tweet_data) as [| a [| b l]]; simpl in H; try lia.
  cbn [app]. cbn [app] in E. now rewrite E.
Qed.
End Sent.
End BotFacts.

(* ================================================================== *)
(** ** The properties at work on sample inputs *)
(* ================================================================== *)

Lemma fast_path_images_wellformed_witness :
  extract_from_meta_tags JaneDoe.html JaneDoe.url <> None
  /\ NoDup ["https://cdn.example/img1.jpg"]
  /\ Forall quote_free ["https://cdn.example/img1.jpg"].
Proof.
  split; [vm_compute; discriminate |].
  apply (fast_path_images_wellformed JaneDoe.html JaneDoe.url
           (mkTweet "Jane Doe ()" "@janedoe" EmptyString
                    ["https://cdn.example/img1.jpg"] [] "Unknown")).
  vm_compute. reflexivity.
Defined.

Lemma no_marker_no_record_witness :
  (Str.contains "og:image" ErrorPage.bare = false
   /\ Str.contains "twitter:image" ErrorPage.bare = false)
  /\ extract_from_meta_tags ErrorPage.bare ErrorPage.url = None
  /\ fast_tier 200 ErrorPage.bare ErrorPage.url
     = if Str.contains "Something went wrong" ErrorPage.bare
       then Return twitter_error else Next.
Proof.
  assert (H1 : Str.contains "og:image" ErrorPage.bare = false)
    by (vm_compute; reflexivity).
  assert (H2 : Str.contains "twitter:image" ErrorPage.bare = false)
    by (vm_compute; reflexivity).
  split; [exact (conj H1 H2) |].
  exact (no_marker_no_record ErrorPage.bare ErrorPage.url H1 H2).
Defined.

Lemma fast_path_handle_shape_witness : plain_handle "@janedoe".
Proof.
  apply (fast_path_handle_shape JaneDoe.html JaneDoe.url
           (mkTweet "Jane Doe ()" "@janedoe" EmptyString
                    ["https://cdn.example/img1.jpg"] [] "Unknown")).
  vm_compute. reflexivity.
Defined.

Lemma article_photos_bounded_and_filtered_witness :
  length (media_urls FivePhotos.result) <= 4
  /\ Forall photo_ok (media_urls FivePhotos.result).
Proof.
  apply (article_photos_bounded_and_filtered (fun s => s) "/alice/status/42"
           "now" FivePhotos.document FivePhotos.result).
  vm_compute. reflexivity.
Defined.

Lemma article_author_shape_witness :
  Str.truthy (username FivePhotos.result) = true
  /\ Str.startswith "@" (username FivePhotos.result) = false
  /\ Str.startswith "@" (handle FivePhotos.result) = true.
Proof.
  apply (article_author_shape (fun s => s) "/alice/status/42" "now"
           FivePhotos.document FivePhotos.result).
  vm_compute. reflexivity.
Defined.

Lemma article_videos_wellformed_witness :
  exists article,
    Dom.querySelector article_selector FivePhotos.document = Some article
    /\ NoDup (video_urls FivePhotos.result)
    /\ Forall (video_ok (fun s => s) article) (video_urls FivePhotos.result).
Proof.
  apply (article_videos_wellformed (fun s => s) "/alice/status/42" "now"
           FivePhotos.document FivePhotos.result).
  vm_compute. reflexivity.
Defined.

Lemma gif_video_listed_once_witness :
  count_occ string_dec
    (unique (Js.videos (fun s => s) (Sample.page [Sample.img GifThumb.thumb])))
    (Js.gif_video_url "XYZ123") = 1.
Proof.
  apply (gif_video_listed_once (fun s => s)
           (Sample.page [Sample.img GifThumb.thumb])
           [("src", GifThumb.thumb)] [] GifThumb.thumb "XYZ123").
  - vm_compute. do 9 right. left. reflexivity.
  - reflexivity.
  - vm_compute. reflexivity.
Defined.

Lemma videos_come_from_the_article_witness :
  article_script (Sample.quiet FivePhotos.document) = Some FivePhotos.result.
Proof.
  apply (videos_come_from_the_article (Sample.quiet FivePhotos.document)
           "https://x.com/alice/status/42" FivePhotos.result).
  - vm_compute. reflexivity.
  - discriminate.
Defined.

Lemma fast_decision_ignores_browser_witness :
  extract_tweet_data SmallPhoto.fast "https://x.com/alice/status/42"
  = extract_tweet_data BrowserDown.w "https://x.com/alice/status/42".
Proof.
  apply (fast_decision_ignores_browser SmallPhoto.fast BrowserDown.w);
    try reflexivity.
  vm_compute. discriminate.
Defined.

Lemma rendered_error_page_any_case_witness :
  render_body Shouting.w = Return twitter_error.
Proof.
  apply (rendered_error_page_any_case Shouting.w "<h1>" "SOMETHING WENT WRONG"
           "</h1>"); vm_compute; reflexivity.
Defined.

Lemma fx_url_of_x_com_witness :
  fx_url ("https://x.com/" ++ "alice/status/42")
  = "https://fixupx.com/" ++ "alice/status/42".
Proof.
  apply (fx_url_of_x_com "alice/status/42"); vm_compute; reflexivity.
Defined.

Lemma fx_url_of_twitter_com_path_witness :
  fx_url ("https://twitter.com/" ++ "alice/status/42")
  = "https://fixupfixupx.com/" ++ "alice/status/42".
Proof.
  apply (fx_url_of_twitter_com_path "alice/status/42"); vm_compute; reflexivity.
Defined.

Lemma fixupx_url_spellings_agree_witness :
  fixupx_url ("https://x.com/" ++ "alice/status/42")
  = "https://fixupx.com/" ++ "alice/status/42"
  /\ fixupx_url ("https://twitter.com/" ++ "alice/status/42")
     = "https://fixupx.com/" ++ "alice/status/42".
Proof.
  apply (fixupx_url_spellings_agree "alice/status/42"); vm_compute; reflexivity.
Defined.

Lemma fx_url_untouched_witness :
  fx_url "https://fxtwitter.net/alice/status/42"
  = "https://fxtwitter.net/alice/status/42"
  /\ fixupx_url "https://fxtwitter.net/alice/status/42"
     = "https://fxtwitter.net/alice/status/42".
Proof.
  apply (fx_url_untouched "https://fxtwitter.net/alice/status/42");
    vm_compute; reflexivity.
Defined.

Lemma extracted_url_is_recognised_witness :
  Urls.is_twitter_url "look: https://X.com/alice/status/42 !" = true.
Proof.
  apply (extracted_url_is_recognised "look: https://X.com/alice/status/42 !"
           "https://X.com/alice/status/42").
  vm_compute. reflexivity.
Defined.


Lemma album_caption_on_first_download_witness :
  Forall Bot.no_caption (Bot.media_group_from Album.get 0 Album.urls "caption")
  /\ exists m g,
       Bot.media_group_from Album.get_all 0 Album.urls "caption" = m :: g
       /\ Bot.item_media m = "bytes of https://pbs.twimg.com/media/A.jpg"
       /\ Bot.item_caption_of m = Some "caption".
Proof.
  split.
  - apply (proj2 (proj2 (proj2 (proj2
             (album_caption_on_first_download Album.get "caption" Album.urls))))
             "https://pbs.twimg.com/media/A.jpg" (tl Album.urls));
      vm_compute; reflexivity.
  - apply (proj1 (proj2 (proj2 (proj2
             (album_caption_on_first_download Album.get_all "caption" Album.urls))))
             "https://pbs.twimg.com/media/A.jpg" (tl Album.urls));
      vm_compute; reflexivity.
Defined.

Lemma four_photos_crowd_out_videos_witness :
  Bot.send_media (fun _ => Album.get_all) (fun _ => true) Album.four_photos "c"
  = Bot._send_media_album (fun _ => Album.get_all) (fun _ => true)
      (firstn 4 (media_urls Album.four_photos)) "c".
Proof.
  apply (four_photos_crowd_out_videos (fun _ => Album.get_all) (fun _ => true)
           Album.four_photos "c").
  vm_compute. lia.
Defined.

Lemma rendered_meta_images_wellformed_witness :
  media_urls MetaOnly.result = Js.allImages (meta_document MetaOnly.w)
  /\ media_urls MetaOnly.result <> []
  /\ NoDup (media_urls MetaOnly.result)
  /\ Forall (fun u => Str.truthy u = true) (media_urls MetaOnly.result)
  /\ timestamp MetaOnly.result = "Unknown".
Proof.
  apply (rendered_meta_images_wellformed MetaOnly.w MetaOnly.result).
  vm_compute. reflexivity.
Defined.
